(** * game_logger.py: the SQLite game store of the lichess bot

    A shallow embedding of [GameLogger] (src/game_logger.py) and of the
    descriptor used by its test-suite (src/test_bot/test_game_logger.py),
    followed by the properties of the four lifecycle operations
    [game_started], [move_played], [update_live_state], [game_finished]
    and of the initialisation [__init__].

    Modelling conventions.
    - A Python attribute that may be missing is an [option]: [None] is
      a missing attribute, and reading it raises [AttributeError].
      Attributes that are present hold a value of their documented
      type (the types of the dataclasses of the test-suite).
    - A nullable SQL column is an [option]: [None] is NULL.
    - Python floats are IEEE binary64 numbers, Rocq's primitive floats.
    - Statements run on the connection's working copy of the database;
      [commit] publishes the working copy.  A storage-engine error is an
      entry of the fault schedule carried by the world: the statement
      that consumes a [true] entry raises and changes nothing.
    - Python ints are unbounded, SQLite's INTEGER has 64 bits: a
      statement binds its int parameters before it runs, and an int
      outside the 64 bits raises [OverflowError] there. *)

From Stdlib Require Import ZArith Floats.
From stdpp Require Import base option list strings gmap.

Local Open Scope string_scope.
Local Open Scope Z_scope.
Local Open Scope list_scope.

(** ** Exceptions and the state-and-exception monad *)

(** The exceptions the code can meet; all of them derive from Python's
    [Exception], so an [except Exception] clause catches each of them. *)
Inductive exn : Type :=
| AttributeError (attr : string)
| IndexError
| AssertionError
| ValueError
| OverflowError
| OperationalError.

(** A computation over a mutable state [S]: it ends with a value or with
    a raised exception, and in both cases leaves a state behind. *)
Definition py (S A : Type) : Type := S -> (exn + A) * S.

Definition ret {S A} (a : A) : py S A := fun s => (inr a, s).

Definition raise {S A} (e : exn) : py S A := fun s => (inl e, s).

Definition bind {S A B} (c : py S A) (k : A -> py S B) : py S B :=
  fun s =>
    match c s with
    | (inr a, s') => k a s'
    | (inl e, s') => (inl e, s')
    end.

Declare Scope py_scope.
Delimit Scope py_scope with py.
Notation "x <- c ;; k" := (bind c (fun x => k))
  (at level 100, c at next level, right associativity) : py_scope.
Notation "c ;; k" := (bind c (fun _ => k))
  (at level 100, right associativity) : py_scope.
Local Open Scope py_scope.

(** [try: body except Exception: handler] *)
Definition try_except {S} (body : py S unit) (handler : py S unit) : py S unit :=
  fun s =>
    match body s with
    | (inr tt, s') => (inr tt, s')
    | (inl _, s') => handler s'
    end.

(** Reading an attribute that may be missing. *)
Definition getattr {S A} (attr : string) (o : option A) : py S A :=
  match o with
  | Some a => ret a
  | None => raise (AttributeError attr)
  end.

Definition gets {S A} (f : S -> A) : py S A := fun s => (inr (f s), s).

Definition modify {S} (f : S -> S) : py S unit := fun s => (inr tt, f s).

(** Running a computation on one component of a pair of states. *)
Definition on_fst {S T A} (c : py S A) : py (S * T) A :=
  fun st => let '(r, s') := c st.1 in (r, (s', st.2)).

Definition on_snd {S T A} (c : py T A) : py (S * T) A :=
  fun st => let '(r, t') := c st.2 in (r, (st.1, t')).

(** ** Python numbers *)

(** [float(z)] for an integer [z]: the nearest binary64 number. *)
Definition float_of_Z (z : Z) : float :=
  SF2Prim (binary_normalize prec emax z 0 false).

(** [int(f)] for a float [f]: truncation towards zero; [int] of a NaN
    raises [ValueError] and [int] of an infinity raises [OverflowError]. *)
Definition int_of_float (f : float) : exn + Z :=
  match Prim2SF f with
  | S754_zero _ => inr 0
  | S754_finite s m e =>
      let mag := if 0 <=? e then Z.shiftl (Z.pos m) e else Z.shiftr (Z.pos m) (- e) in
      inr (if s then - mag else mag)
  | S754_infinity _ => inl OverflowError
  | S754_nan => inl ValueError
  end.

Definition lift_result {S A} (r : exn + A) : py S A :=
  match r with
  | inr a => ret a
  | inl e => raise e
  end.

(** [datetime.timedelta]: a duration is a whole number of microseconds. *)
Record timedelta : Type := { microseconds : Z }.

Definition timedelta_of_seconds (s : Z) : timedelta := {| microseconds := s * 1000000 |}.

(** [a / b] for two Python ints, [b] positive: the binary64 number
    nearest to the exact quotient, ties to even.  The quotient is taken
    with at least 55 bits and a sticky bit, then rounded once. *)
Definition true_divide (a b : Z) : float :=
  let n := Z.abs a in
  let k := Z.max 0 (55 + Z.log2_up b - Z.log2 n) in
  let q := (n * 2 ^ k) / b in
  let sticky := if (n * 2 ^ k) mod b =? 0 then 0 else 1 in
  let m := 2 * q + sticky in
  SF2Prim (binary_normalize prec emax (if a <? 0 then - m else m) (- k - 1) false).

(** [timedelta.total_seconds()]: the microsecond count, an int, divided
    by [10**6]. *)
Definition total_seconds (d : timedelta) : float :=
  true_divide (microseconds d) 1000000.

(** ** The move and board library (python-chess), as the code uses it *)

Class ChessLib : Type := {
  Move : Type;
  Position : Type;
  (** [move.uci()] *)
  uci : Move -> string;
  (** the position notation [board.fen()] of a position *)
  position_fen : Position -> string;
  (** [board.san(move)] in a position; [None] when the library raises
      (the move is not legal there) *)
  position_san : Position -> Move -> option string;
  (** the position reached by pushing a move *)
  play : Position -> Move -> Position;
}.

(** [chess.STARTING_FEN] *)
Definition STARTING_FEN : string :=
  "rnbqkbnr/pppppppp/8/8/8/8/PPPPPPPP/RNBQKBNR w KQkq - 0 1".

Section Board.
Context `{L : ChessLib}.

(** A [chess.Board]: the position it was set up with and the moves
    pushed since.  [pop] restores the position before the last push,
    so the current position is always the fold of [play]. *)
Record Board : Type := { root : Position; move_stack : list Move }.

Definition position (b : Board) : Position :=
  fold_left play (move_stack b) (root b).

(** The last element of a list and what precedes it. *)
Fixpoint unsnoc {A} (l : list A) : option (list A * A) :=
  match l with
  | [] => None
  | x :: l' =>
      match unsnoc l' with
      | None => Some ([], x)
      | Some (front, y) => Some (x :: front, y)
      end
  end.

(** [board.pop()]: [IndexError] on an empty move stack. *)
Definition pop : py Board Move :=
  fun b =>
    match unsnoc (move_stack b) with
    | None => (inl IndexError, b)
    | Some (front, m) => (inr m, {| root := root b; move_stack := front |})
    end.

(** [board.push(move)] *)
Definition push (m : Move) : py Board unit :=
  modify (fun b => {| root := root b; move_stack := move_stack b ++ [m] |}).

(** [board.san(move)] *)
Definition san (m : Move) : py Board string :=
  fun b =>
    match position_san (position b) m with
    | Some s => (inr s, b)
    | None => (inl AssertionError, b)
    end.

(** [board.fen()] *)
Definition fen (b : Board) : string := position_fen (position b).

(** [" ".join(m.uci() for m in board.move_stack)] *)
Definition joined_uci (b : Board) : string :=
  String.concat " " (map uci (move_stack b)).

(** [board.move_stack[-1].uci() if board.move_stack else None] *)
Definition last_uci (b : Board) : option string :=
  match unsnoc (move_stack b) with
  | Some (_, m) => Some (uci m)
  | None => None
  end.
End Board.

Arguments Board {L}.

(** ** Engine scores (python-chess [chess.engine]) *)

(** [chess.WHITE] and [chess.BLACK] *)
Inductive Color : Type := WHITE | BLACK.

(** [chess.engine.Score]: centipawns, mate in [moves] (negative: being
    mated), or mate already given. *)
Inductive Score : Type :=
| Cp (cp : Z)
| Mate (moves : Z)
| MateGiven.

(** [chess.engine.PovScore(relative, turn)] *)
Record PovScore : Type := { relative : Score; turn : Color }.

(** [Score.__neg__] *)
Definition neg (s : Score) : Score :=
  match s with
  | Cp cp => Cp (- cp)
  | Mate moves => if Z.eqb moves 0 then MateGiven else Mate (- moves)
  | MateGiven => Mate 0
  end.

(** [PovScore.white()] *)
Definition white (p : PovScore) : Score :=
  match turn p with
  | WHITE => relative p
  | BLACK => neg (relative p)
  end.

(** [Score.is_mate()] *)
Definition is_mate (s : Score) : bool :=
  match s with
  | Cp _ => false
  | Mate _ | MateGiven => true
  end.

(** [Score.mate()] *)
Definition mate (s : Score) : option Z :=
  match s with
  | Cp _ => None
  | Mate moves => Some moves
  | MateGiven => Some 0
  end.

(** [Score.score()] *)
Definition score (s : Score) : option Z :=
  match s with
  | Cp cp => Some cp
  | Mate _ | MateGiven => None
  end.

(** A relative score [Mate n] with [n] positive announces that the side
    of the point of view mates in [n] moves, with [n] negative that it
    is mated in [- n] moves. *)
Definition white_is_mating (p : PovScore) : Prop :=
  match relative p, turn p with
  | Mate n, WHITE => 0 < n
  | Mate n, BLACK => n < 0
  | _, _ => False
  end.

Definition black_is_mating (p : PovScore) : Prop :=
  match relative p, turn p with
  | Mate n, WHITE => n < 0
  | Mate n, BLACK => 0 < n
  | _, _ => False
  end.

(** ** The collaborator objects *)

(** The elapsed time of a search: a Python float or a Python int. *)
Inductive TimeVal : Type :=
| TimeFloat (f : float)
| TimeInt (z : Z).

(** The evaluation bundle, a dict read with [.get]: a field is [None]
    when its key is absent (or maps to [None]). *)
Module Commentary.
Record t : Type := {
  score : option PovScore;
  depth : option Z;
  nodes : option Z;
  nps : option Z;
  time : option TimeVal;
  ponderpv : option string;
}.

(** The truth value of the dict: it has a key. *)
Definition truthy (c : t) : bool :=
  bool_decide (is_Some (score c)) || bool_decide (is_Some (depth c))
  || bool_decide (is_Some (nodes c)) || bool_decide (is_Some (nps c))
  || bool_decide (is_Some (time c)) || bool_decide (is_Some (ponderpv c)).
End Commentary.

(** The live state bundle [game.state], a dict read with [.get]. *)
Module State.
Record t : Type := {
  wtime : option Z;
  btime : option Z;
  winner : option string;
  status : option string;
}.
End State.

(** The opponent, [game.opponent]; its rating may be [None]. *)
Module Player.
Record t : Type := {
  name : option string;
  rating : option (option Z);
  is_bot : option bool;
}.
End Player.

(** The game descriptor.  [short_url], [time_control] and [result] hold
    what the methods of these names return, [game_start] what
    [game.game_start.isoformat()] returns. *)
Module Game.
Record t : Type := {
  id : option string;
  short_url : option string;
  my_color : option string;
  is_white : option bool;
  opponent : option Player.t;
  time_control : option string;
  speed : option string;
  mode : option string;
  game_start : option string;
  clock_initial : option timedelta;
  state : option State.t;
  result : option string;
}.
End Game.

(** The descriptor of the test-suite: the dataclass [MockGame] with its
    three methods. *)
Module MockGame.
Record t : Type := {
  id : string;
  my_color : string;
  is_white : bool;
  speed : string;
  mode : string;
  opponent : Player.t;
  game_start : string;
  clock_initial : timedelta;
  state : State.t;
}.

Definition short_url (self : t) : string := "https://lichess.org/" +:+ id self.

Definition time_control (self : t) : string := "180+2".

Definition result (self : t) : string :=
  let winner := State.winner (state self) in
  if bool_decide (winner = Some "white") then "1-0"
  else if bool_decide (winner = Some "black") then "0-1"
  else "*".

(** The object as the logger sees it. *)
Definition descriptor (self : t) : Game.t :=
  {| Game.id := Some (id self);
     Game.short_url := Some (short_url self);
     Game.my_color := Some (my_color self);
     Game.is_white := Some (is_white self);
     Game.opponent := Some (opponent self);
     Game.time_control := Some (time_control self);
     Game.speed := Some (speed self);
     Game.mode := Some (mode self);
     Game.game_start := Some (game_start self);
     Game.clock_initial := Some (clock_initial self);
     Game.state := Some (state self);
     Game.result := Some (result self) |}.
End MockGame.

(** ** The three tables *)

Module Games.
Record row : Type := {
  game_id : string;
  lichess_url : option string;
  bot_color : option string;
  opponent_name : option string;
  opponent_rating : option Z;
  opponent_is_bot : option Z;
  time_control : option string;
  speed : option string;
  mode : option string;
  provenance : option string;
  status : option string;
  result : option string;
  termination : option string;
  started_at : option string;
  finished_at : option string;
  moves_uci : option string;
}.
End Games.

Module MoveEvals.
Record row : Type := {
  id : Z;
  game_id : string;
  ply : option Z;
  move_uci : option string;
  move_san : option string;
  eval_cp : option Z;
  eval_mate : option Z;
  depth : option Z;
  pv : option string;
  nodes : option Z;
  nps : option Z;
  time_ms : option Z;
  source : option string;
  clock_ms : option Z;
}.
End MoveEvals.

Module LiveState.
Record row : Type := {
  game_id : string;
  fen : option string;
  last_move_uci : option string;
  moves_uci : option string;
  wtime_ms : option Z;
  btime_ms : option Z;
}.
End LiveState.

(** The rows of the database, each table in rowid order;
    [move_evals_seq] is the AUTOINCREMENT counter of [move_evals]. *)
Record DB : Type := {
  games : list Games.row;
  move_evals : list MoveEvals.row;
  move_evals_seq : Z;
  live_state : list LiveState.row;
}.

Definition empty_db : DB :=
  {| games := []; move_evals := []; move_evals_seq := 0; live_state := [] |}.

(** ** The schema *)

(** The data definition state of the file: the columns of each table and
    the indexes (name, table, indexed columns).  Names are looked up as
    they are spelled, tables and indexes apart: a file is taken to spell
    a name in one case (SQLite compares names without regard to case)
    and to give no table the name of an index (SQLite keeps both in one
    name space). *)
Record Schema : Type := {
  tables : gmap string (list string);
  indexes : gmap string (string * list string);
}.

Definition empty_schema : Schema := {| tables := ∅; indexes := ∅ |}.

(** [CREATE TABLE IF NOT EXISTS name (cols)] *)
Definition create_table_if_not_exists (name : string) (cols : list string)
    (s : Schema) : Schema :=
  match tables s !! name with
  | Some _ => s
  | None => {| tables := <[name := cols]> (tables s); indexes := indexes s |}
  end.

(** [CREATE INDEX IF NOT EXISTS name ON table (cols)]: an error when the
    index is new and the table or one of the columns does not exist. *)
Definition create_index_if_not_exists (name table : string) (cols : list string)
    (s : Schema) : exn + Schema :=
  match indexes s !! name with
  | Some _ => inr s
  | None =>
      match tables s !! table with
      | None => inl OperationalError
      | Some tcols =>
          if bool_decide (cols ⊆ tcols)
          then inr {| tables := tables s;
                      indexes := <[name := (table, cols)]> (indexes s) |}
          else inl OperationalError
      end
  end.

(** [ALTER TABLE table ADD COLUMN col]: an error when the table does not
    exist or already has a column of that name. *)
Definition alter_table_add_column (table col : string) (s : Schema) : exn + Schema :=
  match tables s !! table with
  | None => inl OperationalError
  | Some tcols =>
      if bool_decide (col ∈ tcols)
      then inl OperationalError
      else inr {| tables := <[table := tcols ++ [col]]> (tables s);
                  indexes := indexes s |}
  end.

Definition games_columns : list string :=
  ["game_id"; "lichess_url"; "bot_color"; "opponent_name"; "opponent_rating";
   "opponent_is_bot"; "time_control"; "speed"; "mode"; "provenance"; "status";
   "result"; "termination"; "started_at"; "finished_at"; "moves_uci"].

Definition move_evals_columns : list string :=
  ["id"; "game_id"; "ply"; "move_uci"; "move_san"; "eval_cp"; "eval_mate";
   "depth"; "pv"; "nodes"; "nps"; "time_ms"; "source"; "clock_ms"].

Definition live_state_columns : list string :=
  ["game_id"; "fen"; "last_move_uci"; "moves_uci"; "wtime_ms"; "btime_ms"].

(** [executescript(SCHEMA)]: the script stops at its first error. *)
Definition SCHEMA (s : Schema) : exn + Schema :=
  let s := create_table_if_not_exists "games" games_columns s in
  let s := create_table_if_not_exists "move_evals" move_evals_columns s in
  let s := create_table_if_not_exists "live_state" live_state_columns s in
  match create_index_if_not_exists "idx_move_evals_game" "move_evals" ["game_id"; "ply"] s with
  | inl e => inl e
  | inr s =>
      match create_index_if_not_exists "idx_games_status" "games" ["status"] s with
      | inl e => inl e
      | inr s => create_index_if_not_exists "idx_games_started" "games" ["started_at"] s
      end
  end.

(** ** The world the logger runs in *)

(** What is on disk at the storage location. *)
Record StoreFile : Type := {
  file_schema : Schema;
  file_journal_mode : string;
  file_rows : DB;
}.

(** A file that does not exist yet is created empty by [sqlite3.connect]. *)
Definition new_file : StoreFile :=
  {| file_schema := empty_schema; file_journal_mode := "delete"; file_rows := empty_db |}.

(** A record of the module's [logger]. *)
Inductive LogRecord : Type :=
| INFO (msg : string)
| ERROR (msg : string).

(** The logger object, the file behind its connection, and the log.
    [committed] is what other connections (the spectator) read,
    [working] is what this connection reads and writes; [faults] tells,
    statement by statement, whether the storage engine fails. *)
Record World : Type := {
  schema : Schema;
  journal_mode : string;
  busy_timeout : Z;
  committed : DB;
  working : DB;
  faults : list bool;
  log : list LogRecord;
}.

Definition set_working (f : DB -> DB) (w : World) : World :=
  {| schema := schema w; journal_mode := journal_mode w;
     busy_timeout := busy_timeout w; committed := committed w;
     working := f (working w); faults := faults w; log := log w |}.

Definition set_faults (fs : list bool) (w : World) : World :=
  {| schema := schema w; journal_mode := journal_mode w;
     busy_timeout := busy_timeout w; committed := committed w;
     working := working w; faults := fs; log := log w |}.

Definition publish (w : World) : World :=
  {| schema := schema w; journal_mode := journal_mode w;
     busy_timeout := busy_timeout w; committed := working w;
     working := working w; faults := faults w; log := log w |}.

Definition add_log (r : LogRecord) (w : World) : World :=
  {| schema := schema w; journal_mode := journal_mode w;
     busy_timeout := busy_timeout w; committed := committed w;
     working := working w; faults := faults w; log := log w ++ [r] |}.

(** Does the storage engine fail on the next statement?  The answer is
    consumed. *)
Definition answered (w : World) : World := set_faults (tail (faults w)) w.

Definition next_fault : py World bool :=
  fun w => (inr (default false (head (faults w))), answered w).

(** [self._conn.execute(statement)] for a statement that writes. *)
Definition execute (statement : DB -> DB) : py World unit :=
  failed <- next_fault ;;
  if failed : bool then raise OperationalError else modify (set_working statement).

(** SQLite holds an INTEGER in 64 bits. *)
Definition sqlite_integer (z : Z) : bool := (- 2 ^ 63 <=? z) && (z <? 2 ^ 63).

(** The parameters of a statement that are Python ints or [None] can
    be bound: [None] is bound as NULL, an int outside the 64 bits makes
    the binding raise [OverflowError]. *)
Definition bindable (ints : list (option Z)) : bool :=
  forallb (fun p => match p with Some z => sqlite_integer z | None => true end) ints.

(** [self._conn.execute(sql, parameters)] for a statement that writes:
    the parameters are bound, then the statement runs.  [ints] are the
    parameters that are ints or [None]; the others are strings. *)
Definition execute_with (ints : list (option Z)) (statement : DB -> DB) : py World unit :=
  if bindable ints then execute statement else raise OverflowError.

(** [self._conn.execute(query).fetchone()] *)
Definition fetchone {A} (query : DB -> option A) : py World (option A) :=
  failed <- next_fault ;;
  if failed : bool then raise OperationalError else gets (fun w => query (working w)).

(** [self._conn.commit()] *)
Definition commit : py World unit :=
  failed <- next_fault ;;
  if failed : bool then raise OperationalError else modify publish.

(** [logger.info(msg)] and [logger.exception(msg)] *)
Definition logger_info (msg : string) : py World unit := modify (add_log (INFO msg)).
Definition logger_exception (msg : string) : py World unit := modify (add_log (ERROR msg)).

(** ** The statements *)

(** [INSERT OR REPLACE INTO games]: the rows with the same primary key
    are deleted, then the new row is inserted. *)
Definition insert_or_replace_games (r : Games.row) (d : DB) : DB :=
  {| games := filter (fun x => Games.game_id x ≠ Games.game_id r) (games d) ++ [r];
     move_evals := move_evals d; move_evals_seq := move_evals_seq d;
     live_state := live_state d |}.

(** [INSERT OR REPLACE INTO live_state] *)
Definition insert_or_replace_live_state (r : LiveState.row) (d : DB) : DB :=
  {| games := games d;
     move_evals := move_evals d; move_evals_seq := move_evals_seq d;
     live_state :=
       filter (fun x => LiveState.game_id x ≠ LiveState.game_id r) (live_state d) ++ [r] |}.

(** [INSERT INTO move_evals]: the row gets the next AUTOINCREMENT key. *)
Definition insert_move_evals (r : Z -> MoveEvals.row) (d : DB) : DB :=
  {| games := games d;
     move_evals := move_evals d ++ [r (move_evals_seq d + 1)];
     move_evals_seq := move_evals_seq d + 1;
     live_state := live_state d |}.

(** The [SET] clause of the [UPDATE] of [update_live_state]. *)
Definition set_live_state (fen last_move_uci moves_uci : option string)
    (wtime_ms btime_ms : option Z) (x : LiveState.row) : LiveState.row :=
  {| LiveState.game_id := LiveState.game_id x;
     LiveState.fen := fen;
     LiveState.last_move_uci := last_move_uci;
     LiveState.moves_uci := moves_uci;
     LiveState.wtime_ms := wtime_ms;
     LiveState.btime_ms := btime_ms |}.

(** [UPDATE live_state SET fen = ?, last_move_uci = ?, moves_uci = ?,
    wtime_ms = ?, btime_ms = ? WHERE game_id = ?] *)
Definition update_live_state_where (fen last_move_uci moves_uci : option string)
    (wtime_ms btime_ms : option Z) (gid : string) (d : DB) : DB :=
  {| games := games d;
     move_evals := move_evals d; move_evals_seq := move_evals_seq d;
     live_state :=
       map (fun x =>
              if bool_decide (LiveState.game_id x = gid)
              then set_live_state fen last_move_uci moves_uci wtime_ms btime_ms x
              else x)
           (live_state d) |}.

(** [SELECT moves_uci FROM live_state WHERE game_id = ?] *)
Definition select_moves_uci_where (gid : string) (d : DB) : option (option string) :=
  LiveState.moves_uci <$> head (filter (fun x => LiveState.game_id x = gid) (live_state d)).

(** The [SET] clause of the [UPDATE] of [game_finished]. *)
Definition set_finished (result termination finished_at moves_uci : option string)
    (x : Games.row) : Games.row :=
  {| Games.game_id := Games.game_id x;
     Games.lichess_url := Games.lichess_url x;
     Games.bot_color := Games.bot_color x;
     Games.opponent_name := Games.opponent_name x;
     Games.opponent_rating := Games.opponent_rating x;
     Games.opponent_is_bot := Games.opponent_is_bot x;
     Games.time_control := Games.time_control x;
     Games.speed := Games.speed x;
     Games.mode := Games.mode x;
     Games.provenance := Games.provenance x;
     Games.status := Some "finished";
     Games.result := result;
     Games.termination := termination;
     Games.started_at := Games.started_at x;
     Games.finished_at := finished_at;
     Games.moves_uci := moves_uci |}.

(** [UPDATE games SET status = 'finished', result = ?, termination = ?,
    finished_at = ?, moves_uci = ? WHERE game_id = ?] *)
Definition update_games_where (result termination finished_at moves_uci : option string)
    (gid : string) (d : DB) : DB :=
  {| games :=
       map (fun x =>
              if bool_decide (Games.game_id x = gid)
              then set_finished result termination finished_at moves_uci x
              else x)
           (games d);
     move_evals := move_evals d; move_evals_seq := move_evals_seq d;
     live_state := live_state d |}.

(** [DELETE FROM live_state WHERE game_id = ?] *)
Definition delete_live_state_where (gid : string) (d : DB) : DB :=
  {| games := games d;
     move_evals := move_evals d; move_evals_seq := move_evals_seq d;
     live_state := filter (fun x => LiveState.game_id x ≠ gid) (live_state d) |}.

(** ** [GameLogger] *)

(** [GameLogger.__init__]: the pragmas, the schema script, the column
    migration (whose [OperationalError] is passed over), the commit.
    An error of the script propagates to the caller.  The directory,
    the connection and the pragmas are taken to succeed and the storage
    engine to answer while the logger is built: the errors modelled are
    those of the data definition statements, and the fault schedule
    [fs] is left whole to the operations that follow. *)
Definition __init__ (db_path : string) (file : StoreFile) (fs : list bool) : exn + World :=
  match SCHEMA (file_schema file) with
  | inl e => inl e
  | inr s =>
      match
        match alter_table_add_column "games" "moves_uci" s with
        | inr s' => inr s'
        | inl OperationalError => inr s
        | inl e => inl e
        end
      with
      | inl e => inl e
      | inr s =>
          inr {| schema := s; journal_mode := "wal"; busy_timeout := 5000;
                 committed := file_rows file; working := file_rows file;
                 faults := fs;
                 log := [INFO ("GameLogger initialized: " +:+ db_path)] |}
      end
  end.

(** What is on disk behind a logger: the schema and the committed rows. *)
Definition file_of (w : World) : StoreFile :=
  {| file_schema := schema w; file_journal_mode := journal_mode w;
     file_rows := committed w |}.

(** The logger [__init__] builds on a new file. *)
Definition initial_world (db_path : string) (fs : list bool) : World :=
  {| schema :=
       {| tables :=
            <["games" := games_columns]>
              (<["move_evals" := move_evals_columns]>
                 (<["live_state" := live_state_columns]> ∅));
          indexes :=
            <["idx_move_evals_game" := ("move_evals", ["game_id"; "ply"])]>
              (<["idx_games_status" := ("games", ["status"])]>
                 (<["idx_games_started" := ("games", ["started_at"])]> ∅)) |};
     journal_mode := "wal"; busy_timeout := 5000;
     committed := empty_db; working := empty_db; faults := fs;
     log := [INFO ("GameLogger initialized: " +:+ db_path)] |}.

(** [int(game.clock_initial.total_seconds() * 1000)] *)
Definition clock_initial_ms (d : timedelta) : exn + Z :=
  int_of_float (PrimFloat.mul (total_seconds d) (float_of_Z 1000)).

(** The body of the [try] of [game_started]. *)
Definition game_started_body (game : Game.t) (provenance : string) : py World unit :=
  game_id <- getattr "id" (Game.id game) ;;
  lichess_url <- getattr "short_url" (Game.short_url game) ;;
  bot_color <- getattr "my_color" (Game.my_color game) ;;
  opponent <- getattr "opponent" (Game.opponent game) ;;
  opponent_name <- getattr "name" (Player.name opponent) ;;
  opponent <- getattr "opponent" (Game.opponent game) ;;
  opponent_rating <- getattr "rating" (Player.rating opponent) ;;
  opponent <- getattr "opponent" (Game.opponent game) ;;
  opponent_is_bot <- getattr "is_bot" (Player.is_bot opponent) ;;
  time_control <- getattr "time_control" (Game.time_control game) ;;
  speed <- getattr "speed" (Game.speed game) ;;
  mode <- getattr "mode" (Game.mode game) ;;
  started_at <- getattr "game_start" (Game.game_start game) ;;
  execute_with [opponent_rating; Some (if opponent_is_bot : bool then 1 else 0)]
    (insert_or_replace_games
             {| Games.game_id := game_id;
                Games.lichess_url := Some lichess_url;
                Games.bot_color := Some bot_color;
                Games.opponent_name := Some opponent_name;
                Games.opponent_rating := opponent_rating;
                Games.opponent_is_bot := Some (if opponent_is_bot : bool then 1 else 0);
                Games.time_control := Some time_control;
                Games.speed := Some speed;
                Games.mode := Some mode;
                Games.provenance := Some provenance;
                Games.status := Some "playing";
                Games.result := Some "*";
                Games.termination := None;
                Games.started_at := Some started_at;
                Games.finished_at := None;
                Games.moves_uci := None |}) ;;
  game_id <- getattr "id" (Game.id game) ;;
  clock_initial <- getattr "clock_initial" (Game.clock_initial game) ;;
  wtime_ms <- lift_result (clock_initial_ms clock_initial) ;;
  clock_initial <- getattr "clock_initial" (Game.clock_initial game) ;;
  btime_ms <- lift_result (clock_initial_ms clock_initial) ;;
  execute_with [Some wtime_ms; Some btime_ms]
    (insert_or_replace_live_state
             {| LiveState.game_id := game_id;
                LiveState.fen := Some STARTING_FEN;
                LiveState.last_move_uci := None;
                LiveState.moves_uci := Some "";
                LiveState.wtime_ms := Some wtime_ms;
                LiveState.btime_ms := Some btime_ms |}) ;;
  commit ;;
  game_id <- getattr "id" (Game.id game) ;;
  logger_info ("Game started: " +:+ game_id +:+ " (" +:+ provenance +:+ ")").

(** [GameLogger.game_started] *)
Definition game_started (game : Game.t) (provenance : string) : py World unit :=
  try_except
    (game_started_body game provenance)
    (game_id <- getattr "id" (Game.id game) ;;
     logger_exception ("Failed to log game start for " +:+ game_id)).

(** The local variables [move_played] fills from the evaluation bundle. *)
Record Evaluation : Type := {
  eval_cp : option Z;
  eval_mate : option Z;
  depth : option Z;
  pv_str : option string;
  nodes : option Z;
  nps : option Z;
  time_ms : option Z;
}.

(** [int(time_val * 1000) if isinstance(time_val, float) else int(time_val)] *)
Definition time_ms_of (time_val : TimeVal) : exn + Z :=
  match time_val with
  | TimeFloat f => int_of_float (PrimFloat.mul f (float_of_Z 1000))
  | TimeInt z => inr z
  end.

(** Lines 149-175 of [move_played]: the defaults, then what a bundle
    that is neither [None] nor empty provides. *)
Definition read_commentary {S} (commentary : option Commentary.t) : py S Evaluation :=
  match commentary with
  | Some c =>
      if Commentary.truthy c then
        let white_score := white <$> Commentary.score c in
        let eval_mate :=
          match white_score with
          | Some s => if is_mate s then mate s else None
          | None => None
          end in
        let eval_cp :=
          match white_score with
          | Some s => if is_mate s then None else score s
          | None => None
          end in
        time_ms <-
          match Commentary.time c with
          | Some time_val => t <- lift_result (time_ms_of time_val) ;; ret (Some t)
          | None => ret None
          end ;;
        let pv_str :=
          match Commentary.ponderpv c with
          | Some pv_san => if bool_decide (pv_san = "") then None else Some pv_san
          | None => None
          end in
        ret {| eval_cp := eval_cp; eval_mate := eval_mate;
               depth := Commentary.depth c; pv_str := pv_str;
               nodes := Commentary.nodes c; nps := Commentary.nps c;
               time_ms := time_ms |}
      else
        ret {| eval_cp := None; eval_mate := None; depth := None; pv_str := None;
               nodes := None; nps := None; time_ms := None |}
  | None =>
      ret {| eval_cp := None; eval_mate := None; depth := None; pv_str := None;
             nodes := None; nps := None; time_ms := None |}
  end.

(** [GameLogger.game_finished], the body of its [try]; [now] is what
    [datetime.datetime.now(datetime.timezone.utc).isoformat()] returns. *)
Definition game_finished_body (game : Game.t) (now : string) : py World unit :=
  state <- getattr "state" (Game.state game) ;;
  let winner := State.winner state in
  state <- getattr "state" (Game.state game) ;;
  let termination := State.status state in
  result <- getattr "result" (Game.result game) ;;
  game_id <- getattr "id" (Game.id game) ;;
  row <- fetchone (select_moves_uci_where game_id) ;;
  let moves_uci := match row with Some m => m | None => None end in
  game_id <- getattr "id" (Game.id game) ;;
  execute (update_games_where (Some result) termination (Some now) moves_uci game_id) ;;
  game_id <- getattr "id" (Game.id game) ;;
  execute (delete_live_state_where game_id) ;;
  commit ;;
  game_id <- getattr "id" (Game.id game) ;;
  logger_info ("Game finished: " +:+ game_id +:+ " result=" +:+ result
               +:+ " term=" +:+ default "None" termination).

(** [GameLogger.game_finished] *)
Definition game_finished (game : Game.t) (now : string) : py World unit :=
  try_except
    (game_finished_body game now)
    (game_id <- getattr "id" (Game.id game) ;;
     logger_exception ("Failed to log game end for " +:+ game_id)).

Section WithBoard.
Context `{L : ChessLib}.

(** The body of the [try] of [move_played]; the board is the caller's
    object and lives next to the world. *)
Definition move_played_body (game : Game.t) (move : Move)
    (commentary : option Commentary.t) (source : string) : py (World * Board) unit :=
  stack <- on_snd (gets move_stack) ;;
  let ply := Z.of_nat (length stack) - 1 in
  on_snd pop ;;
  move_san <- on_snd (san move) ;;
  on_snd (push move) ;;
  ev <- read_commentary commentary ;;
  state <- getattr "state" (Game.state game) ;;
  is_white <- getattr "is_white" (Game.is_white game) ;;
  let clock_ms := if is_white : bool then State.wtime state else State.btime state in
  game_id <- getattr "id" (Game.id game) ;;
  on_fst (execute_with
            [Some ply; eval_cp ev; eval_mate ev; depth ev; nodes ev; nps ev;
             time_ms ev; clock_ms]
            (insert_move_evals (fun rowid =>
             {| MoveEvals.id := rowid;
                MoveEvals.game_id := game_id;
                MoveEvals.ply := Some ply;
                MoveEvals.move_uci := Some (uci move);
                MoveEvals.move_san := Some move_san;
                MoveEvals.eval_cp := eval_cp ev;
                MoveEvals.eval_mate := eval_mate ev;
                MoveEvals.depth := depth ev;
                MoveEvals.pv := pv_str ev;
                MoveEvals.nodes := nodes ev;
                MoveEvals.nps := nps ev;
                MoveEvals.time_ms := time_ms ev;
                MoveEvals.source := Some source;
                MoveEvals.clock_ms := clock_ms |}))) ;;
  on_fst commit.

(** [GameLogger.move_played] *)
Definition move_played (game : Game.t) (move : Move)
    (commentary : option Commentary.t) (source : string) : py (World * Board) unit :=
  try_except
    (move_played_body game move commentary source)
    (game_id <- getattr "id" (Game.id game) ;;
     on_fst (logger_exception ("Failed to log move for " +:+ game_id))).

(** The body of the [try] of [update_live_state]; the board is only
    read. *)
Definition update_live_state_body (game : Game.t) (board : Board) : py World unit :=
  let moves_uci := joined_uci board in
  let last_move := last_uci board in
  state <- getattr "state" (Game.state game) ;;
  game_id <- getattr "id" (Game.id game) ;;
  execute_with [State.wtime state; State.btime state]
    (update_live_state_where (Some (fen board)) last_move (Some moves_uci)
             (State.wtime state) (State.btime state) game_id) ;;
  commit.

(** [GameLogger.update_live_state] *)
Definition update_live_state (game : Game.t) (board : Board) : py World unit :=
  try_except
    (update_live_state_body game board)
    (game_id <- getattr "id" (Game.id game) ;;
     logger_exception ("Failed to update live state for " +:+ game_id)).

End WithBoard.

(** ** The values of the test-suite *)

(** The opening lines the test-suite plays, as python-chess answers on
    them: a move is its UCI string, a position the line that leads to
    it from the initial array.  The two tables hold the answers of
    python-chess at their entries: a position notation, and a move
    notation or none where [board.san] raises (a3a4 goes from a square
    that holds no piece, which the assertion of [san] refuses).  The
    tables are partial: the last row of each stands for the lines and
    moves that are not listed, where its answer is a placeholder and not
    that of python-chess; the statements below evaluate the tables at
    their entries only. *)
Definition opening_fen (line : list string) : string :=
  match line with
  | [] => STARTING_FEN
  | ["e2e4"] => "rnbqkbnr/pppppppp/8/8/4P3/8/PPPP1PPP/RNBQKBNR b KQkq - 0 1"
  | ["d2d4"] => "rnbqkbnr/pppppppp/8/8/3P4/8/PPP1PPPP/RNBQKBNR b KQkq - 0 1"
  | ["e2e4"; "e7e5"] => "rnbqkbnr/pppp1ppp/8/4p3/4P3/8/PPPP1PPP/RNBQKBNR w KQkq - 0 2"
  | ["e2e4"; "g8f6"] => "rnbqkb1r/pppppppp/5n2/8/4P3/8/PPPP1PPP/RNBQKBNR w KQkq - 1 2"
  | ["e2e4"; "e7e5"; "g1f3"] =>
      "rnbqkbnr/pppp1ppp/8/4p3/4P3/5N2/PPPP1PPP/RNBQKB1R b KQkq - 1 2"
  | _ => ""
  end.

Definition opening_san (line : list string) (move : string) : option string :=
  match line, move with
  | [], "e2e4" => Some "e4"
  | [], "d2d4" => Some "d4"
  | ["e2e4"], "e7e5" => Some "e5"
  | ["e2e4"], "g8f6" => Some "Nf6"
  | ["e2e4"; "e7e5"], "g1f3" => Some "Nf3"
  | [], "a3a4" => None
  | ["e2e4"], "a3a4" => None
  | _, _ => None
  end.

#[export] Instance opening_lines : ChessLib :=
  {| Move := string;
     Position := list string;
     uci := fun m => m;
     position_fen := opening_fen;
     position_san := opening_san;
     play := fun line m => line ++ [m] |}.

(** [chess.Board()] followed by pushes of the given moves. *)
Definition board_after (moves : list string) : Board (L := opening_lines) :=
  {| root := []; move_stack := moves |}.

(** [MockPlayer()] *)
Definition MockPlayer : Player.t :=
  {| Player.name := Some "TestOpponent"; Player.rating := Some (Some 1500);
     Player.is_bot := Some false |}.

(** [MockGame(id=id)] with [wtime], [btime] and a possible winner and
    status in its state. *)
Definition mock_game (id : string) (wtime btime : Z) (winner : option string)
    (status : string) : MockGame.t :=
  {| MockGame.id := id;
     MockGame.my_color := "white";
     MockGame.is_white := true;
     MockGame.speed := "blitz";
     MockGame.mode := "rated";
     MockGame.opponent := MockPlayer;
     MockGame.game_start := "2025-01-15T12:00:00+00:00";
     MockGame.clock_initial := timedelta_of_seconds 180;
     MockGame.state :=
       {| State.wtime := Some wtime; State.btime := Some btime;
          State.winner := winner; State.status := Some status |} |}.

(** [MockGame()] *)
Definition MockGame_default : Game.t :=
  MockGame.descriptor (mock_game "test_game_1" 180000 180000 None "started").

(** [class BadGame: id = "bad"] *)
Definition BadGame : Game.t :=
  {| Game.id := Some "bad"; Game.short_url := None; Game.my_color := None;
     Game.is_white := None; Game.opponent := None; Game.time_control := None;
     Game.speed := None; Game.mode := None; Game.game_start := None;
     Game.clock_initial := None; Game.state := None; Game.result := None |}.

(** A descriptor without any attribute, not even [id]. *)
Definition NoIdGame : Game.t :=
  {| Game.id := None; Game.short_url := None; Game.my_color := None;
     Game.is_white := None; Game.opponent := None; Game.time_control := None;
     Game.speed := None; Game.mode := None; Game.game_start := None;
     Game.clock_initial := None; Game.state := None; Game.result := None |}.

(** The Python float [0.05], the binary64 number nearest to 5/100. *)
Definition float_0_05 : float := 0x1.999999999999ap-5%float.

(** [make_commentary(cp=cp, depth=depth)] and [make_commentary(mate=mate)] *)
Definition make_commentary (sc : Score) (depth : Z) : Commentary.t :=
  {| Commentary.score := Some {| relative := sc; turn := WHITE |};
     Commentary.depth := Some depth;
     Commentary.nodes := Some 50000;
     Commentary.nps := Some 1000000;
     Commentary.time := Some (TimeFloat float_0_05);
     Commentary.ponderpv := Some "e5 Nf3" |}.

(** The fixture [logger]: a logger on a new file, no storage fault. *)
Definition fresh_world : World := initial_world "test_games.db" [].

(** [MockGame(is_white=False, my_color="black")] with 170000 ms on the
    clock of Black. *)
Definition MockGame_black : Game.t :=
  MockGame.descriptor
    {| MockGame.id := "test_game_1";
       MockGame.my_color := "black";
       MockGame.is_white := false;
       MockGame.speed := "blitz";
       MockGame.mode := "rated";
       MockGame.opponent := MockPlayer;
       MockGame.game_start := "2025-01-15T12:00:00+00:00";
       MockGame.clock_initial := timedelta_of_seconds 180;
       MockGame.state :=
         {| State.wtime := Some 180000; State.btime := Some 170000;
            State.winner := None; State.status := Some "started" |} |}.



(** The world a computation leaves, and whether it returned. *)
Definition after {S A} (c : py S A) (s : S) : S := (c s).2.

Definition returns {S} (c : py S unit) (s : S) : Prop := (c s).1 = inr tt.

(** The worlds of [test_complete_game]: the game started, the first
    move of the bot logged, its second move logged. *)
Definition world_started : World :=
  after (game_started MockGame_default "matchmaking") fresh_world.

Definition world_e4 : World :=
  (after (move_played MockGame_default "e2e4" (Some (make_commentary (Cp 30) 12)) "book")
     (world_started, board_after ["e2e4"])).1.

Definition world_Nf3 : World :=
  (after (move_played MockGame_default "g1f3" (Some (make_commentary (Cp 25) 14)) "search")
     (world_e4, board_after ["e2e4"; "e7e5"; "g1f3"])).1.

(** The started game when the storage engine is to fail on the third
    statement to come. *)
Definition world_started_failing_third : World :=
  set_faults [false; false; true] world_started.

(** The world of [test_black_clock_tracking]: the bot is Black, the
    game is started, and after 1. e4 e5 the move e7e5 is logged. *)
Definition world_black_e5 : World :=
  (after (move_played MockGame_black "e7e5" (Some (make_commentary (Cp 35) 12)) "search")
     (after (game_started MockGame_black "matchmaking") fresh_world,
      board_after ["e2e4"; "e7e5"])).1.

(** The body of [move_played] on the board after 1. e4 e5 with a move
    that is not the last of the board. *)
Definition call_with_other_move : (exn + unit) * (World * Board) :=
  move_played_body MockGame_default "g8f6" None "search"
    (world_started, board_after ["e2e4"; "e7e5"]).

(** [MockGame()] at its end: White has won by mate. *)
Definition MockGame_won : Game.t :=
  MockGame.descriptor (mock_game "test_game_1" 177000 178000 (Some "white") "mate").

(** The started game after 1. e4 e5 2. Nf3 is put in its live row. *)
Definition world_three_moves : World :=
  after (update_live_state MockGame_default (board_after ["e2e4"; "e7e5"; "g1f3"]))
    world_started.


(** A descriptor of the started game that has its [id] only. *)
Definition MockGame_without_state : Game.t :=
  {| Game.id := Some "test_game_1"; Game.short_url := None; Game.my_color := None;
     Game.is_white := None; Game.opponent := None; Game.time_control := None;
     Game.speed := None; Game.mode := None; Game.game_start := None;
     Game.clock_initial := None; Game.state := None; Game.result := None |}.

(** [MockGame()] with a clock of White that SQLite cannot hold. *)
Definition MockGame_huge_clock : Game.t :=
  MockGame.descriptor (mock_game "test_game_1" (2 ^ 63) 178000 None "started").

(** The started game when the storage engine is to fail on the next
    statement. *)
Definition world_started_failing_first : World :=
  set_faults [true] world_started.

(** ** Specification vocabulary *)

(** The next [n] statements meet no storage-engine error. *)
Fixpoint calm_faults (n : nat) (fs : list bool) : Prop :=
  match n with
  | O => True
  | S n => default false (head fs) = false /\ calm_faults n (tail fs)
  end.

Definition calm (n : nat) (w : World) : Prop := calm_faults n (faults w).

(** The rows of one game in each table. *)
Definition games_of (gid : string) (d : DB) : list Games.row :=
  filter (fun x => Games.game_id x = gid) (games d).

Definition move_evals_of (gid : string) (d : DB) : list MoveEvals.row :=
  filter (fun x => MoveEvals.game_id x = gid) (move_evals d).

Definition live_state_of (gid : string) (d : DB) : list LiveState.row :=
  filter (fun x => LiveState.game_id x = gid) (live_state d).

(** The data of every game but [gid] is the same in [d'] as in [d]. *)
Definition others_unchanged (gid : string) (d d' : DB) : Prop :=
  forall g, g ≠ gid ->
    games_of g d' = games_of g d
    /\ move_evals_of g d' = move_evals_of g d
    /\ live_state_of g d' = live_state_of g d.

(** In the working copy of [w] the rows of the games other than [gid]
    are those of [d0]. *)
Definition apart (gid : string) (d0 : DB) (w : World) : Prop :=
  others_unchanged gid d0 (working w).

(** Every [live_state] row has a [games] row of the same game. *)
Definition live_has_game (d : DB) : Prop :=
  Forall (fun r => Exists (fun g => Games.game_id g = LiveState.game_id r) (games d))
    (live_state d).

(** The [games] table has a row of the game [gid]. *)
Definition has_game (gid : string) (d : DB) : Prop :=
  Exists (fun g => Games.game_id g = gid) (games d).

(** What the logger sees and what the spectator sees both satisfy it. *)
Definition consistent (w : World) : Prop :=
  live_has_game (working w) /\ live_has_game (committed w).

(** Hoare triples of the monad: from a state in [P] the computation
    ends in [Q] when it returns and in [E] when it raises. *)
Definition hoare {S A} (P : S -> Prop) (c : py S A)
    (Q : A -> S -> Prop) (E : exn -> S -> Prop) : Prop :=
  forall s, P s ->
    match c s with
    | (inr a, s') => Q a s'
    | (inl e, s') => E e s'
    end.

(** The attributes [game_started] reads are all there, and the rating
    of the opponent, when it is not [None], is an integer of SQLite. *)
Definition well_formed (game : Game.t) : Prop :=
  is_Some (Game.id game) /\ is_Some (Game.short_url game)
  /\ is_Some (Game.my_color game)
  /\ (exists p, Game.opponent game = Some p /\ is_Some (Player.name p)
                /\ (exists r, Player.rating p = Some r /\ bindable [r] = true)
                /\ is_Some (Player.is_bot p))
  /\ is_Some (Game.time_control game) /\ is_Some (Game.speed game)
  /\ is_Some (Game.mode game) /\ is_Some (Game.game_start game)
  /\ is_Some (Game.clock_initial game).

(** The schema has all that [__init__] creates. *)
Definition initialised (s : Schema) : Prop :=
  (exists cols, tables s !! "games" = Some cols /\ "moves_uci" ∈ cols)
  /\ is_Some (tables s !! "move_evals")
  /\ is_Some (tables s !! "live_state")
  /\ is_Some (indexes s !! "idx_move_evals_game")
  /\ is_Some (indexes s !! "idx_games_status")
  /\ is_Some (indexes s !! "idx_games_started").

(** The rows [game_started] writes for a descriptor that has its
    attributes: the row of [games], the pending result included, and the
    row of [live_state] with [ms] milliseconds on both clocks. *)
Definition started_games_row (game : Game.t) (provenance game_id : string) : Games.row :=
  {| Games.game_id := game_id;
     Games.lichess_url := Game.short_url game;
     Games.bot_color := Game.my_color game;
     Games.opponent_name :=
       match Game.opponent game with
       | Some p => Player.name p
       | None => None
       end;
     Games.opponent_rating :=
       match Game.opponent game with
       | Some p => match Player.rating p with Some r => r | None => None end
       | None => None
       end;
     Games.opponent_is_bot :=
       match Game.opponent game with
       | Some p =>
           match Player.is_bot p with
           | Some b => Some (if b : bool then 1 else 0)
           | None => None
           end
       | None => None
       end;
     Games.time_control := Game.time_control game;
     Games.speed := Game.speed game;
     Games.mode := Game.mode game;
     Games.provenance := Some provenance;
     Games.status := Some "playing";
     Games.result := Some "*";
     Games.termination := None;
     Games.started_at := Game.game_start game;
     Games.finished_at := None;
     Games.moves_uci := None |}.

Definition started_live_state_row (game_id : string) (ms : Z) : LiveState.row :=
  {| LiveState.game_id := game_id;
     LiveState.fen := Some STARTING_FEN;
     LiveState.last_move_uci := None;
     LiveState.moves_uci := Some "";
     LiveState.wtime_ms := Some ms;
     LiveState.btime_ms := Some ms |}.



(** A store written by the schema that preceded the [moves_uci] column
    of [games]. *)
Definition legacy_file (rows : DB) : StoreFile :=
  {| file_schema :=
       {| tables :=
            <["games" := take 15 games_columns]>
              (<["move_evals" := move_evals_columns]>
                 (<["live_state" := live_state_columns]> ∅));
          indexes :=
            <["idx_move_evals_game" := ("move_evals", ["game_id"; "ply"])]>
              (<["idx_games_status" := ("games", ["status"])]>
                 (<["idx_games_started" := ("games", ["started_at"])]> ∅)) |};
     file_journal_mode := "wal";
     file_rows := rows |}.

(** The move history of a live row as the specification words it:
    the notations joined by single spaces, in the order of play. *)
Fixpoint space_joined (l : list string) : string :=
  match l with
  | [] => ""
  | x :: l' =>
      match l' with
      | [] => x
      | _ :: _ => x +:+ " " +:+ space_joined l'
      end
  end.

(** The two clocks of a state are absent or integers of SQLite. *)
Definition clocks_fit (state : State.t) : Prop :=
  bindable [State.wtime state; State.btime state] = true.




Section Calls.
Context `{L : ChessLib}.

(** A call of one of the four lifecycle operations. *)
Inductive Call : Type :=
| GameStarted (game : Game.t) (provenance : string)
| MovePlayed (game : Game.t) (board : Board) (move : Move)
    (commentary : option Commentary.t) (source : string)
| UpdateLiveState (game : Game.t) (board : Board)
| GameFinished (game : Game.t) (now : string).

(** The world after a call, whatever its outcome. *)
Definition world_after (c : Call) (w : World) : World :=
  match c with
  | GameStarted game provenance => after (game_started game provenance) w
  | MovePlayed game board move commentary source =>
      (after (move_played game move commentary source) (w, board)).1
  | UpdateLiveState game board => after (update_live_state game board) w
  | GameFinished game now => after (game_finished game now) w
  end.

Definition world_after_all (cs : list Call) (w : World) : World :=
  fold_left (fun w c => world_after c w) cs w.

(** [update_live_state] called for each board of a list, in order. *)
Definition update_live_state_all (calls : list (Game.t * Board)) (w : World) : World :=
  fold_left (fun w c => after (update_live_state c.1 c.2) w) calls w.

(** The notation of the last move of a board in the position before
    it: the move retracted, [position_san] asked. *)
Definition pre_move_san (b : Board) : option string :=
  match unsnoc (move_stack b) with
  | Some (front, m) =>
      position_san (position {| root := root b; move_stack := front |}) m
  | None => None
  end.

(** A run of [move_played] calls whose bodies complete, each on a
    board whose last move is the move passed. *)
Inductive logged (game : Game.t) : list Board -> World -> World -> Prop :=
| logged_nil w : logged game [] w w
| logged_cons board front move commentary source boards w w1 w2 board' :
    move_stack board = front ++ [move] ->
    move_played_body game move commentary source (w, board) = (inr tt, (w1, board')) ->
    logged game boards w1 w2 ->
    logged game (board :: boards) w w2.

(** The boards of one game, set up at [start] and played along [line],
    after the plies [ks]: the board after ply [k] has the first [k + 1]
    moves. *)
Definition boards_of_game (start : Position) (line : list Move) (ks : list nat) :
    list Board :=
  map (fun k => {| root := start; move_stack := take (S k) line |}) ks.

End Calls.


(** Nothing published and nothing logged since the store was [c0] and
    the log [l0]. *)
Definition unpublished (c0 : DB) (l0 : list LogRecord) (w : World) : Prop :=
  committed w = c0 /\ log w = l0.

Section Outcomes.
Context `{L : ChessLib}.

Definition game_of (c : Call) : Game.t :=
  match c with
  | GameStarted game _ => game
  | MovePlayed game _ _ _ _ => game
  | UpdateLiveState game _ => game
  | GameFinished game _ => game
  end.

(** How the body of the [try] of a call ends. *)
Definition body_result (c : Call) (w : World) : exn + unit :=
  match c with
  | GameStarted game provenance => (game_started_body game provenance w).1
  | MovePlayed game board move commentary source =>
      (move_played_body game move commentary source (w, board)).1
  | UpdateLiveState game board => (update_live_state_body game board w).1
  | GameFinished game now => (game_finished_body game now w).1
  end.


(** The record of a call whose body raised, for the game [game_id]. *)
Definition failure_record (c : Call) (game_id : string) : LogRecord :=
  match c with
  | GameStarted _ _ => ERROR ("Failed to log game start for " +:+ game_id)
  | MovePlayed _ _ _ _ _ => ERROR ("Failed to log move for " +:+ game_id)
  | UpdateLiveState _ _ => ERROR ("Failed to update live state for " +:+ game_id)
  | GameFinished _ _ => ERROR ("Failed to log game end for " +:+ game_id)
  end.

(** The records of a call whose body completed. *)
Definition success_records (c : Call) (game_id : string) : list LogRecord :=
  match c with
  | GameStarted _ provenance =>
      [INFO ("Game started: " +:+ game_id +:+ " (" +:+ provenance +:+ ")")]
  | MovePlayed _ _ _ _ _ => []
  | UpdateLiveState _ _ => []
  | GameFinished game _ =>
      match Game.result game, Game.state game with
      | Some result, Some state =>
          [INFO ("Game finished: " +:+ game_id +:+ " result=" +:+ result
                 +:+ " term=" +:+ default "None" (State.status state))]
      | _, _ => []
      end
  end.
End Outcomes.

(** The descriptor [game] without its [clock_initial] attribute. *)
Definition without_clock_initial (game : Game.t) : Game.t :=
  {| Game.id := Game.id game; Game.short_url := Game.short_url game;
     Game.my_color := Game.my_color game; Game.is_white := Game.is_white game;
     Game.opponent := Game.opponent game; Game.time_control := Game.time_control game;
     Game.speed := Game.speed game; Game.mode := Game.mode game;
     Game.game_start := Game.game_start game; Game.clock_initial := None;
     Game.state := Game.state game; Game.result := Game.result game |}.

(** ** The steps of an operation *)

(** The statements the four operations run, whatever their parameters;
    the row of [move_evals] takes the key it is given. *)
Inductive statement : (DB -> DB) -> Prop :=
| statement_insert_or_replace_games r : statement (insert_or_replace_games r)
| statement_insert_or_replace_live_state r :
    statement (insert_or_replace_live_state r)
| statement_insert_move_evals r :
    (forall rowid, MoveEvals.id (r rowid) = rowid) -> statement (insert_move_evals r)
| statement_update_live_state_where fen last_move_uci moves_uci wtime_ms btime_ms gid :
    statement (update_live_state_where fen last_move_uci moves_uci wtime_ms btime_ms gid)
| statement_update_games_where result termination finished_at moves_uci gid :
    statement (update_games_where result termination finished_at moves_uci gid)
| statement_delete_live_state_where gid : statement (delete_live_state_where gid).

(** What an operation does to the world, one step at a time: the
    storage engine answers for a statement, a statement runs, the
    working copy is committed, a record is logged. *)
Inductive step : World -> World -> Prop :=
| step_answered w : step w (answered w)
| step_statement st w : statement st -> step w (set_working st w)
| step_publish w : step w (publish w)
| step_add_log r w : step w (add_log r w).

(** No game has two rows in [games] or two rows in [live_state]. *)
Definition unique_keys (d : DB) : Prop :=
  forall g, (length (games_of g d) <= 1)%nat /\ (length (live_state_of g d) <= 1)%nat.

(** The keys of [move_evals] are 1, 2, ... in the order of the rows,
    and the AUTOINCREMENT counter is the last of them. *)
Definition rowids_in_order (d : DB) : Prop :=
  map MoveEvals.id (move_evals d) = seqZ 1 (Z.of_nat (length (move_evals d)))
  /\ move_evals_seq d = Z.of_nat (length (move_evals d)).

(** Statements only append to [move_evals]. *)
Definition move_evals_grow (d d' : DB) : Prop :=
  move_evals d `prefix_of` move_evals d'.

(** Statements delete no row of [games]. *)
Definition games_kept (d d' : DB) : Prop := forall g, has_game g d -> has_game g d'.

(** * Properties *)

(** ** Rules of the monad *)

Lemma hoare_ret {S A} (P : S -> Prop) (a : A) Q E :
  (forall s, P s -> Q a s) -> hoare P (ret a) Q E.
Proof. intros H s Hs. apply H, Hs. Qed.

Lemma hoare_raise {S A} (P : S -> Prop) e (Q : A -> S -> Prop) E :
  (forall s, P s -> E e s) -> hoare P (raise e) Q E.
Proof. intros H s Hs. apply H, Hs. Qed.

Lemma hoare_bind {S A B} (P : S -> Prop) (c : py S A) (k : A -> py S B) M Q E :
  hoare P c M E -> (forall a, hoare (M a) (k a) Q E) -> hoare P (bind c k) Q E.
Proof.
  intros Hc Hk s Hs. unfold bind. specialize (Hc s Hs).
  destruct (c s) as [[e | a] s']; [exact Hc |]. apply (Hk a s' Hc).
Qed.

Lemma hoare_conseq {S A} (P P' : S -> Prop) (c : py S A) (Q Q' : A -> S -> Prop)
    (E E' : exn -> S -> Prop) :
  hoare P' c Q' E' -> (forall s, P s -> P' s) -> (forall a s, Q' a s -> Q a s) ->
  (forall e s, E' e s -> E e s) -> hoare P c Q E.
Proof.
  intros Hc HP HQ HE s Hs. specialize (Hc s (HP s Hs)).
  destruct (c s) as [[e | a] s']; eauto.
Qed.

Lemma hoare_getattr {S A B} (P : S -> Prop) attr (o : option A) (k : A -> py S B) Q E :
  (forall a, o = Some a -> hoare P (k a) Q E) ->
  (forall s, P s -> E (AttributeError attr) s) ->
  hoare P (bind (getattr attr o) k) Q E.
Proof.
  intros Hk He s Hs. unfold bind, getattr.
  destruct o as [a |]; simpl; [apply (Hk a eq_refl s Hs) | apply He, Hs].
Qed.

Lemma hoare_lift_result {S A B} (P : S -> Prop) (r : exn + A) (k : A -> py S B) Q E :
  (forall a, r = inr a -> hoare P (k a) Q E) ->
  (forall e s, P s -> E e s) ->
  hoare P (bind (lift_result r) k) Q E.
Proof.
  intros Hk He s Hs. unfold bind, lift_result.
  destruct r as [e | a]; simpl; [apply He, Hs | apply (Hk a eq_refl s Hs)].
Qed.

Lemma hoare_try_except {S} (P : S -> Prop) (body handler : py S unit) M Q E :
  hoare P body Q M -> (forall e, hoare (M e) handler Q E) ->
  hoare P (try_except body handler) Q E.
Proof.
  intros Hb Hh s Hs. unfold try_except. specialize (Hb s Hs).
  destruct (body s) as [[e | []] s']; [apply (Hh e s' Hb) | exact Hb].
Qed.

(** A statement either fails, leaving the rows as they are, or runs. *)
Lemma hoare_execute (P : World -> Prop) statement (Q : unit -> World -> Prop) E :
  (forall w, P w -> Q tt (set_working statement (set_faults (tail (faults w)) w))) ->
  (forall w, P w -> E OperationalError (set_faults (tail (faults w)) w)) ->
  hoare P (execute statement) Q E.
Proof.
  intros HQ HE w Hw. unfold execute, bind, next_fault.
  destruct (default false (head (faults w))); simpl; [apply HE, Hw | apply HQ, Hw].
Qed.

(** With parameters to bind, it may also fail at the binding, before
    the storage engine is asked. *)
Lemma hoare_execute_with (P : World -> Prop) ints statement
    (Q : unit -> World -> Prop) E :
  (forall w, P w -> Q tt (set_working statement (set_faults (tail (faults w)) w))) ->
  (forall w, P w -> E OperationalError (set_faults (tail (faults w)) w)) ->
  (forall w, P w -> E OverflowError w) ->
  hoare P (execute_with ints statement) Q E.
Proof.
  intros HQ HE HO. unfold execute_with. destruct (bindable ints).
  - by apply hoare_execute.
  - intros w Hw. apply HO, Hw.
Qed.

Lemma hoare_fetchone {A} (P : World -> Prop) (query : DB -> option A)
    (Q : option A -> World -> Prop) E :
  (forall w, P w -> Q (query (working w)) (set_faults (tail (faults w)) w)) ->
  (forall w, P w -> E OperationalError (set_faults (tail (faults w)) w)) ->
  hoare P (fetchone query) Q E.
Proof.
  intros HQ HE w Hw. unfold fetchone, bind, next_fault.
  destruct (default false (head (faults w))); simpl; [apply HE, Hw | apply HQ, Hw].
Qed.

Lemma hoare_commit (P : World -> Prop) (Q : unit -> World -> Prop) E :
  (forall w, P w -> Q tt (publish (set_faults (tail (faults w)) w))) ->
  (forall w, P w -> E OperationalError (set_faults (tail (faults w)) w)) ->
  hoare P commit Q E.
Proof.
  intros HQ HE w Hw. unfold commit, bind, next_fault.
  destruct (default false (head (faults w))); simpl; [apply HE, Hw | apply HQ, Hw].
Qed.

Lemma hoare_modify {S} (P : S -> Prop) (f : S -> S) (Q : unit -> S -> Prop) E :
  (forall s, P s -> Q tt (f s)) -> hoare P (modify f) Q E.
Proof. intros H s Hs. apply H, Hs. Qed.

Lemma hoare_on_fst {S T A} (P : S * T -> Prop) (c : py S A) Q E :
  (forall t, hoare (fun s => P (s, t)) c (fun a s => Q a (s, t)) (fun e s => E e (s, t))) ->
  hoare P (on_fst c) Q E.
Proof.
  intros H [s t] Hs. unfold on_fst. simpl. specialize (H t s Hs).
  destruct (c s) as [[e | a] s']; exact H.
Qed.

Lemma hoare_on_snd {S T A} (P : S * T -> Prop) (c : py T A) Q E :
  (forall s, hoare (fun t => P (s, t)) c (fun a t => Q a (s, t)) (fun e t => E e (s, t))) ->
  hoare P (on_snd c) Q E.
Proof.
  intros H [s t] Hs. unfold on_snd. simpl. specialize (H s t Hs).
  destruct (c t) as [[e | a] t']; exact H.
Qed.

(** ** Rows of one game under the statements *)

Section Keyed.
Context {A : Type} (key : A -> string).

Lemma filter_key_other (g gid : string) (l : list A) :
  g ≠ gid ->
  filter (fun x => key x = g) (filter (fun x => key x ≠ gid) l)
  = filter (fun x => key x = g) l.
Proof.
  intros Hne. induction l as [| x l IH]; [reflexivity |].
  destruct (decide (key x = gid)) as [Heq | Hneq].
  - rewrite (filter_cons_False (fun x => key x ≠ gid)) by (intros H; apply H, Heq).
    rewrite (filter_cons_False (fun x => key x = g)) by congruence. exact IH.
  - rewrite (filter_cons_True (fun x => key x ≠ gid)) by exact Hneq.
    destruct (decide (key x = g)) as [Hg | Hg].
    + rewrite !(filter_cons_True (fun x => key x = g)) by exact Hg. by rewrite IH.
    + rewrite !(filter_cons_False (fun x => key x = g)) by exact Hg. exact IH.
Qed.

Lemma filter_key_gone (gid : string) (l : list A) :
  filter (fun x => key x = gid) (filter (fun x => key x ≠ gid) l) = [].
Proof.
  induction l as [| x l IH]; [reflexivity |].
  destruct (decide (key x = gid)) as [Heq | Hneq].
  - rewrite (filter_cons_False (fun x => key x ≠ gid)) by (intros H; apply H, Heq).
    exact IH.
  - rewrite (filter_cons_True (fun x => key x ≠ gid)) by exact Hneq.
    rewrite (filter_cons_False (fun x => key x = gid)) by exact Hneq. exact IH.
Qed.

Lemma filter_key_map (f : A -> A) (g : string) (l : list A) :
  (forall x, key (f x) = key x) ->
  filter (fun x => key x = g) (map f l) = map f (filter (fun x => key x = g) l).
Proof.
  intros Hkey. induction l as [| x l IH]; [reflexivity |]. simpl map.
  destruct (decide (key x = g)) as [Hg | Hg].
  - rewrite (filter_cons_True (fun x => key x = g) (f x)) by (rewrite Hkey; exact Hg).
    rewrite (filter_cons_True (fun x => key x = g) x) by exact Hg.
    simpl. by rewrite IH.
  - rewrite (filter_cons_False (fun x => key x = g) (f x)) by (rewrite Hkey; exact Hg).
    rewrite (filter_cons_False (fun x => key x = g) x) by exact Hg. exact IH.
Qed.

Lemma map_filter_key_id (f : A -> A) (g : string) (l : list A) :
  (forall x, key x = g -> f x = x) ->
  map f (filter (fun x => key x = g) l) = filter (fun x => key x = g) l.
Proof.
  intros Hid. induction l as [| x l IH]; [reflexivity |].
  destruct (decide (key x = g)) as [Hg | Hg].
  - rewrite (filter_cons_True (fun x => key x = g) x) by exact Hg.
    simpl. by rewrite IH, Hid.
  - rewrite (filter_cons_False (fun x => key x = g) x) by exact Hg. exact IH.
Qed.

Lemma filter_key_snoc_other (g : string) (l : list A) (x : A) :
  key x ≠ g ->
  filter (fun x => key x = g) (l ++ [x]) = filter (fun x => key x = g) l.
Proof.
  intros Hne. rewrite filter_app, (filter_cons_False (fun x => key x = g)) by exact Hne.
  rewrite filter_nil. apply app_nil_r.
Qed.

Lemma filter_key_snoc_same (l : list A) (x : A) :
  filter (fun y => key y = key x) (l ++ [x])
  = filter (fun y => key y = key x) l ++ [x].
Proof.
  rewrite filter_app, (filter_cons_True (fun y => key y = key x)) by reflexivity.
  by rewrite filter_nil.
Qed.

End Keyed.

Lemma others_unchanged_refl gid d : others_unchanged gid d d.
Proof. by intros g Hg. Qed.

Lemma others_unchanged_trans gid d1 d2 d3 :
  others_unchanged gid d1 d2 -> others_unchanged gid d2 d3 -> others_unchanged gid d1 d3.
Proof.
  intros H12 H23 g Hg. destruct (H12 g Hg) as (? & ? & ?).
  destruct (H23 g Hg) as (? & ? & ?). repeat split; congruence.
Qed.

Lemma insert_or_replace_games_others r gid d :
  Games.game_id r = gid -> others_unchanged gid d (insert_or_replace_games r d).
Proof.
  intros Hr g Hg. unfold games_of, move_evals_of, live_state_of; simpl.
  repeat split. subst gid.
  rewrite filter_key_snoc_other by congruence. by apply filter_key_other.
Qed.

Lemma insert_or_replace_live_state_others r gid d :
  LiveState.game_id r = gid -> others_unchanged gid d (insert_or_replace_live_state r d).
Proof.
  intros Hr g Hg. unfold games_of, move_evals_of, live_state_of; simpl.
  repeat split. subst gid.
  rewrite filter_key_snoc_other by congruence. by apply filter_key_other.
Qed.

Lemma insert_move_evals_others r gid d :
  (forall rowid, MoveEvals.game_id (r rowid) = gid) ->
  others_unchanged gid d (insert_move_evals r d).
Proof.
  intros Hr g Hg. unfold games_of, move_evals_of, live_state_of; simpl.
  repeat split. apply filter_key_snoc_other. rewrite Hr. congruence.
Qed.

Lemma update_live_state_where_others f l m wt bt gid' gid d :
  gid' = gid -> others_unchanged gid d (update_live_state_where f l m wt bt gid' d).
Proof.
  intros -> g Hg. unfold games_of, move_evals_of, live_state_of; simpl.
  repeat split. rewrite filter_key_map.
  - apply map_filter_key_id. intros x Hx. rewrite bool_decide_eq_false_2; congruence.
  - intros x. by destruct (bool_decide _).
Qed.

Lemma update_games_where_others r t f m gid' gid d :
  gid' = gid -> others_unchanged gid d (update_games_where r t f m gid' d).
Proof.
  intros -> g Hg. unfold games_of, move_evals_of, live_state_of; simpl.
  repeat split. rewrite filter_key_map.
  - apply map_filter_key_id. intros x Hx. rewrite bool_decide_eq_false_2; congruence.
  - intros x. by destruct (bool_decide _).
Qed.

Lemma delete_live_state_where_others gid' gid d :
  gid' = gid -> others_unchanged gid d (delete_live_state_where gid' d).
Proof.
  intros -> g Hg. unfold games_of, move_evals_of, live_state_of; simpl.
  repeat split. by apply filter_key_other.
Qed.

Lemma hoare_getattr_some {S A B} (P : S -> Prop) attr (o : option A) a
    (k : A -> py S B) Q E :
  o = Some a -> hoare P (k a) Q E -> hoare P (bind (getattr attr o) k) Q E.
Proof. intros -> Hk s Hs. apply (Hk s Hs). Qed.

Lemma hoare_gets {S A B} (P : S -> Prop) (f : S -> A) (k : A -> py S B) Q E :
  (forall s0, hoare (fun s => P s /\ s = s0) (k (f s0)) Q E) ->
  hoare P (bind (gets f) k) Q E.
Proof. intros Hk s Hs. unfold bind, gets. apply (Hk s s). by split. Qed.

(** Stepping through a body whose every intermediate state is to
    satisfy one and the same assertion [I], exceptions included;
    [side] settles what a statement does to [I]. *)
Ltac step_with I side :=
  lazymatch goal with
  | |- hoare _ (bind (getattr _ _) _) _ _ =>
      apply hoare_getattr; [intros ? ? | intros ? ?; side]
  | |- hoare _ (bind (lift_result _) _) _ _ =>
      apply hoare_lift_result; [intros ? ? | intros ? ? ?; side]
  | |- hoare _ (bind (execute _) _) _ _ =>
      apply hoare_bind with (M := fun _ => I);
      [apply hoare_execute; intros ? ?; side | intros _]
  | |- hoare _ (bind (execute_with _ _) _) _ _ =>
      apply hoare_bind with (M := fun _ => I);
      [apply hoare_execute_with; intros ? ?; side | intros _]
  | |- hoare _ (bind (fetchone _) _) _ _ =>
      apply hoare_bind with (M := fun _ => I);
      [apply hoare_fetchone; intros ? ?; side | intros ?]
  | |- hoare _ (bind commit _) _ _ =>
      apply hoare_bind with (M := fun _ => I);
      [apply hoare_commit; intros ? ?; side | intros _]
  | |- hoare _ (execute _) _ _ => apply hoare_execute; intros ? ?; side
  | |- hoare _ commit _ _ => apply hoare_commit; intros ? ?; side
  | |- hoare _ (logger_info _) _ _ => apply hoare_modify; intros ? ?; side
  | |- hoare _ (logger_exception _) _ _ => apply hoare_modify; intros ? ?; side
  | |- hoare _ (let _ := _ in _) _ _ => cbv zeta
  end.


Lemma on_snd_fst {S T A} (c : py T A) (st : S * T) : ((on_snd c st).2).1 = st.1.
Proof. unfold on_snd. by destruct (c st.2). Qed.

Lemma read_commentary_state {S} commentary (s : S) :
  (read_commentary commentary s).2 = s.
Proof.
  unfold read_commentary. destruct commentary as [c |]; [| reflexivity].
  destruct (Commentary.truthy c); [| reflexivity].
  unfold bind. destruct (Commentary.time c) as [tv |]; [| reflexivity].
  unfold lift_result. by destruct (time_ms_of tv).
Qed.

(** A computation that leaves the first component alone keeps what is
    known of it. *)
Lemma hoare_keep_fst_bind {S T A B} (I : S -> Prop) (c : py (S * T) A)
    (k : A -> py (S * T) B) Q :
  (forall st, ((c st).2).1 = st.1) ->
  (forall a, hoare (fun st => I st.1) (k a) Q (fun _ st => I st.1)) ->
  hoare (fun st => I st.1) (bind c k) Q (fun _ st => I st.1).
Proof.
  intros Hc Hk st Hst. unfold bind. specialize (Hc st).
  destruct (c st) as [[e | a] st']; simpl in Hc.
  - by rewrite Hc.
  - apply Hk. by rewrite Hc.
Qed.

Section Isolation.
Context `{L : ChessLib}.
Variables (game : Game.t) (gid : string).
Hypothesis Hid : Game.id game = Some gid.
Variable d0 : DB.

Ltac apart_side :=
  idtac;
  lazymatch goal with
  | H : apart _ _ ?w |- apart _ _ _ =>
      unfold apart in *; simpl;
      first
        [ exact H
        | apply (others_unchanged_trans _ _ _ _ H);
          first
            [ apply insert_or_replace_games_others
            | apply insert_or_replace_live_state_others
            | apply update_live_state_where_others
            | apply update_games_where_others
            | apply delete_live_state_where_others ];
          simpl; congruence ]
  end.

Lemma handler_apart (msg : string -> string) :
  hoare (apart gid d0)
    (game_id <- getattr "id" (Game.id game) ;; logger_exception (msg game_id))
    (fun _ => apart gid d0) (fun _ _ => False).
Proof.
  apply (hoare_getattr_some _ _ _ _ _ _ _ Hid).
  apply hoare_modify. intros w Hw. exact Hw.
Qed.

Lemma game_started_apart provenance :
  hoare (apart gid d0) (game_started game provenance) (fun _ => apart gid d0) (fun _ _ => False).
Proof.
  apply hoare_try_except with (M := fun _ => apart gid d0); [| intros _; apply handler_apart].
  unfold game_started_body.
  repeat step_with (apart gid d0) apart_side.
Qed.

Lemma game_finished_apart now :
  hoare (apart gid d0) (game_finished game now) (fun _ => apart gid d0) (fun _ _ => False).
Proof.
  apply hoare_try_except with (M := fun _ => apart gid d0); [| intros _; apply handler_apart].
  unfold game_finished_body.
  repeat step_with (apart gid d0) apart_side.
Qed.

Lemma update_live_state_apart board :
  hoare (apart gid d0) (update_live_state game board) (fun _ => apart gid d0) (fun _ _ => False).
Proof.
  apply hoare_try_except with (M := fun _ => apart gid d0); [| intros _; apply handler_apart].
  unfold update_live_state_body.
  repeat step_with (apart gid d0) apart_side.
Qed.

Lemma move_played_apart move commentary source :
  hoare (fun st : World * Board => apart gid d0 st.1)
    (move_played game move commentary source)
    (fun _ st => apart gid d0 st.1) (fun _ _ => False).
Proof.
  apply hoare_try_except with (M := fun _ st => apart gid d0 st.1).
  - unfold move_played_body.
    apply hoare_keep_fst_bind; [apply on_snd_fst | intros stack].
    apply hoare_keep_fst_bind; [apply on_snd_fst | intros _].
    apply hoare_keep_fst_bind; [apply on_snd_fst | intros move_san].
    apply hoare_keep_fst_bind; [apply on_snd_fst | intros _].
    apply hoare_keep_fst_bind; [intros st; by rewrite read_commentary_state | intros ev].
    apply hoare_getattr; [intros state _ | intros ? H; exact H].
    apply hoare_getattr; [intros is_white _ | intros ? H; exact H].
    apply hoare_getattr; [intros game_id Hgame_id | intros ? H; exact H].
    apply hoare_bind with (M := fun _ st => apart gid d0 st.1); [| intros _].
    + apply hoare_on_fst. intros board. apply hoare_execute_with; intros w Hw; simpl in *.
      * unfold apart in *. simpl. apply (others_unchanged_trans _ _ _ _ Hw).
        apply insert_move_evals_others. intros rowid. simpl. congruence.
      * exact Hw.
      * exact Hw.
    + apply hoare_on_fst. intros board. apply hoare_commit; intros w Hw; exact Hw.
  - intros _. apply (hoare_getattr_some _ _ _ _ _ _ _ Hid).
    apply hoare_on_fst. intros board. apply hoare_modify. intros w Hw. exact Hw.
Qed.
End Isolation.

Lemma hoare_total {S} (P : S -> Prop) (c : py S unit) (Q : unit -> S -> Prop) (s : S) :
  hoare P c Q (fun _ _ => False) -> P s -> returns c s /\ Q tt (after c s).
Proof.
  intros Hc Hs. specialize (Hc s Hs). unfold returns, after.
  destruct (c s) as [[e | []] s']; [destruct Hc | by split].
Qed.

(** ** C1: failure isolation *)

(** Where the handlers do what they are there for: when the game
    descriptor has its [id] attribute, each of the four lifecycle
    operations returns normally, whatever else the descriptor lacks,
    whatever the board, the evaluation bundle, the rows of the store
    and the storage-engine errors met, and it leaves the rows of every
    other game ID, in the three tables of the working copy of the
    connection, as they were. *)
Theorem lifecycle_returns_and_isolates `{L : ChessLib} (game : Game.t) (gid : string)
    (provenance : string) (board : Board) (move : Move)
    (commentary : option Commentary.t) (source now : string) (w : World) :
  Game.id game = Some gid ->
  (returns (game_started game provenance) w
   /\ others_unchanged gid (working w)
        (working (after (game_started game provenance) w)))
  /\ (returns (move_played game move commentary source) (w, board)
      /\ others_unchanged gid (working w)
           (working (after (move_played game move commentary source) (w, board)).1))
  /\ (returns (update_live_state game board) w
      /\ others_unchanged gid (working w)
           (working (after (update_live_state game board) w)))
  /\ (returns (game_finished game now) w
      /\ others_unchanged gid (working w)
           (working (after (game_finished game now) w))).
Proof.
  intros Hid. split; [| split; [| split]].
  - apply (hoare_total (apart gid (working w)) _ (fun _ => apart gid (working w)));
      [by apply game_started_apart | apply others_unchanged_refl].
  - apply (hoare_total (fun st : World * Board => apart gid (working w) st.1) _
             (fun _ st => apart gid (working w) st.1));
      [by apply move_played_apart | apply others_unchanged_refl].
  - apply (hoare_total (apart gid (working w)) _ (fun _ => apart gid (working w)));
      [by apply update_live_state_apart | apply others_unchanged_refl].
  - apply (hoare_total (apart gid (working w)) _ (fun _ => apart gid (working w)));
      [by apply game_finished_apart | apply others_unchanged_refl].
Qed.

(** At the descriptor of the test-suite that has nothing but its
    [id], on a board without a move. *)
Lemma lifecycle_returns_and_isolates_witness :
  (returns (game_started BadGame "test") fresh_world
   /\ others_unchanged "bad" (working fresh_world)
        (working (after (game_started BadGame "test") fresh_world)))
  /\ (returns (move_played BadGame "e2e4" None "search") (fresh_world, board_after [])
      /\ others_unchanged "bad" (working fresh_world)
           (working (after (move_played BadGame "e2e4" None "search")
                       (fresh_world, board_after [])).1))
  /\ (returns (update_live_state BadGame (board_after [])) fresh_world
      /\ others_unchanged "bad" (working fresh_world)
           (working (after (update_live_state BadGame (board_after [])) fresh_world)))
  /\ (returns (game_finished BadGame "2025-01-15T12:30:00+00:00") fresh_world
      /\ others_unchanged "bad" (working fresh_world)
           (working (after (game_finished BadGame "2025-01-15T12:30:00+00:00")
                       fresh_world))).
Proof.
  apply (lifecycle_returns_and_isolates BadGame "bad" "test" (board_after []) "e2e4"
           None "search" "2025-01-15T12:30:00+00:00" fresh_world).
  reflexivity.
Defined.

(** C1 fails on the code.  Each operation wraps its body in
    [try ... except Exception] to catch whatever is raised (the test
    suite: the logger should catch exceptions, not crash the bot), but
    the handler formats [game.id] into its message: on a descriptor
    without the [id] attribute the body raises, the handler raises in
    its turn, and the [AttributeError] leaves each of the four
    operations. *)
Lemma lifecycle_raises_without_id :
  (game_started NoIdGame "test" fresh_world).1 = inl (AttributeError "id")
  /\ (move_played NoIdGame "e2e4" None "search" (fresh_world, board_after ["e2e4"])).1
     = inl (AttributeError "id")
  /\ (update_live_state NoIdGame (board_after ["e2e4"]) fresh_world).1
     = inl (AttributeError "id")
  /\ (game_finished NoIdGame "2025-01-15T12:30:00+00:00" fresh_world).1
     = inl (AttributeError "id").
Proof. repeat split; reflexivity. Qed.

(** ** C9: a live row always has its game row *)

Lemma insert_or_replace_games_live r d :
  live_has_game d -> live_has_game (insert_or_replace_games r d).
Proof.
  unfold live_has_game. simpl. intros H. eapply Forall_impl; [exact H |].
  intros x Hx. simpl in Hx. apply Exists_exists in Hx as (g & Hg & Hkey).
  apply Exists_exists. destruct (decide (Games.game_id g = Games.game_id r)) as [Heq | Hne].
  - exists r. split; [apply elem_of_app; right; apply list_elem_of_singleton; reflexivity |].
    congruence.
  - exists g. split; [| exact Hkey].
    apply elem_of_app. left. apply list_elem_of_filter. by split.
Qed.

Lemma insert_or_replace_games_has r gid d :
  Games.game_id r = gid -> has_game gid (insert_or_replace_games r d).
Proof.
  intros <-. unfold has_game. simpl. apply Exists_exists. exists r.
  split; [apply elem_of_app; right; apply list_elem_of_singleton; reflexivity | reflexivity].
Qed.

Lemma insert_or_replace_live_state_live r d :
  live_has_game d -> has_game (LiveState.game_id r) d ->
  live_has_game (insert_or_replace_live_state r d).
Proof.
  unfold live_has_game, has_game. simpl. intros H Hr.
  apply Forall_app. split.
  - apply Forall_forall. intros x Hx. apply list_elem_of_filter in Hx as [_ Hx].
    revert x Hx. apply Forall_forall. exact H.
  - apply Forall_cons. split; [exact Hr | apply Forall_nil_2].
Qed.

Lemma update_live_state_where_live f l m wt bt gid d :
  live_has_game d -> live_has_game (update_live_state_where f l m wt bt gid d).
Proof.
  unfold live_has_game. simpl. intros H. apply Forall_fmap.
  eapply Forall_impl; [exact H |]. intros x Hx. simpl.
  by destruct (bool_decide (LiveState.game_id x = gid)).
Qed.

Lemma update_games_where_live r t f m gid d :
  live_has_game d -> live_has_game (update_games_where r t f m gid d).
Proof.
  unfold live_has_game. simpl. intros H.
  eapply Forall_impl; [exact H |]. intros x Hx. simpl in *.
  apply Exists_fmap. eapply Exists_impl; [exact Hx |].
  intros g Hg. simpl. by destruct (bool_decide (Games.game_id g = gid)).
Qed.

Lemma delete_live_state_where_live gid d :
  live_has_game d -> live_has_game (delete_live_state_where gid d).
Proof.
  unfold live_has_game. simpl. intros H.
  apply Forall_forall. intros x Hx. apply list_elem_of_filter in Hx as [_ Hx].
  revert x Hx. apply Forall_forall. exact H.
Qed.

(** What settles a statement of a body that keeps [consistent]. *)
Ltac consistent_side :=
  idtac;
  lazymatch goal with
  | H : consistent ?w |- consistent _ =>
      destruct H as [? ?]; split; simpl;
      first
        [ assumption
        | by apply insert_or_replace_games_live
        | by apply update_live_state_where_live
        | by apply update_games_where_live
        | by apply delete_live_state_where_live ]
  | H : consistent ?w /\ has_game _ _ |- _ =>
      destruct H as [[? ?] ?]; repeat split; simpl;
      first
        [ assumption
        | apply insert_or_replace_live_state_live; [assumption |]; simpl;
          lazymatch goal with
          | Hg : has_game ?g ?d |- has_game ?g' ?d =>
              replace g' with g by congruence; exact Hg
          end ]
  end.

Section Consistency.
Context `{L : ChessLib}.

Lemma handler_consistent game (msg : string -> string) :
  hoare consistent
    (game_id <- getattr "id" (Game.id game) ;; logger_exception (msg game_id))
    (fun _ => consistent) (fun _ => consistent).
Proof. repeat step_with consistent consistent_side. Qed.

Lemma game_started_consistent game provenance :
  hoare consistent (game_started game provenance)
    (fun _ => consistent) (fun _ => consistent).
Proof.
  apply hoare_try_except with (M := fun _ => consistent);
    [| intros _; apply handler_consistent].
  unfold game_started_body.
  apply hoare_getattr; [intros game_id Hgame_id | intros ? ?; consistent_side].
  do 12 step_with consistent consistent_side.
  apply hoare_bind
    with (M := fun _ w => consistent w /\ has_game game_id (working w)); [| intros _].
  - apply hoare_execute_with; intros w Hw; [| consistent_side | consistent_side].
    destruct Hw as [Hw Hc]. repeat split; simpl; [| exact Hc |].
    + by apply insert_or_replace_games_live.
    + by apply insert_or_replace_games_has.
  - repeat step_with (fun w => consistent w /\ has_game game_id (working w))
      consistent_side.
Qed.

Lemma update_live_state_consistent game board :
  hoare consistent (update_live_state game board)
    (fun _ => consistent) (fun _ => consistent).
Proof.
  apply hoare_try_except with (M := fun _ => consistent);
    [| intros _; apply handler_consistent].
  unfold update_live_state_body.
  repeat step_with consistent consistent_side.
Qed.

Lemma game_finished_consistent game now :
  hoare consistent (game_finished game now)
    (fun _ => consistent) (fun _ => consistent).
Proof.
  apply hoare_try_except with (M := fun _ => consistent);
    [| intros _; apply handler_consistent].
  unfold game_finished_body.
  repeat step_with consistent consistent_side.
Qed.

Lemma move_played_consistent game move commentary source :
  hoare (fun st : World * Board => consistent st.1)
    (move_played game move commentary source)
    (fun _ st => consistent st.1) (fun _ st => consistent st.1).
Proof.
  apply hoare_try_except with (M := fun _ st => consistent st.1).
  - unfold move_played_body.
    apply hoare_keep_fst_bind; [apply on_snd_fst | intros stack].
    apply hoare_keep_fst_bind; [apply on_snd_fst | intros _].
    apply hoare_keep_fst_bind; [apply on_snd_fst | intros move_san].
    apply hoare_keep_fst_bind; [apply on_snd_fst | intros _].
    apply hoare_keep_fst_bind; [intros st; by rewrite read_commentary_state | intros ev].
    apply hoare_getattr; [intros state _ | intros ? H; exact H].
    apply hoare_getattr; [intros is_white _ | intros ? H; exact H].
    apply hoare_getattr; [intros game_id _ | intros ? H; exact H].
    apply hoare_bind with (M := fun _ st => consistent st.1); [| intros _].
    + apply hoare_on_fst. intros board. apply hoare_execute_with; intros w Hw; exact Hw.
    + apply hoare_on_fst. intros board.
      apply hoare_commit; intros w Hw; simpl in *; [| exact Hw].
      destruct Hw as [Hw _]. by split.
  - intros _. apply hoare_getattr; [intros game_id _ | intros ? H; exact H].
    apply hoare_on_fst. intros board. apply hoare_modify. intros w Hw. exact Hw.
Qed.

Lemma world_after_consistent (c : Call) (w : World) :
  consistent w -> consistent (world_after c w).
Proof.
  intros Hw. destruct c as [game provenance | game board move commentary source
                           | game board | game now]; simpl; unfold after.
  - pose proof (game_started_consistent game provenance w Hw) as H.
    by destruct (game_started game provenance w) as [[e | a] w'].
  - pose proof (move_played_consistent game move commentary source (w, board) Hw) as H.
    by destruct (move_played game move commentary source (w, board)) as [[e | a] w'].
  - pose proof (update_live_state_consistent game board w Hw) as H.
    by destruct (update_live_state game board w) as [[e | a] w'].
  - pose proof (game_finished_consistent game now w Hw) as H.
    by destruct (game_finished game now w) as [[e | a] w'].
Qed.

Lemma world_after_all_consistent (cs : list Call) (w : World) :
  consistent w -> consistent (world_after_all cs w).
Proof.
  revert w. induction cs as [| c cs IH]; intros w Hw; [exact Hw |].
  simpl. apply IH, world_after_consistent, Hw.
Qed.

End Consistency.

(** C9: from the store [__init__] builds on a new file, after any
    sequence of calls of the four lifecycle operations, with any
    arguments and any storage-engine errors (an error stops an operation
    between two of its statements, so the states inside an operation are
    among these), every [live_state] row has a [games] row of its game
    ID, in the working copy and in what is committed. *)
Theorem live_state_rows_have_games_rows `{L : ChessLib} (db_path : string)
    (fs : list bool) (cs : list Call) :
  consistent (world_after_all cs (initial_world db_path fs)).
Proof.
  apply world_after_all_consistent. split; apply Forall_nil_2.
Qed.


(** ** C8: initialisation is idempotent *)

Lemma init_new_file db_path fs :
  __init__ db_path new_file fs = inr (initial_world db_path fs).
Proof. vm_compute. reflexivity. Qed.

Lemma create_table_if_not_exists_lookup name cols s :
  is_Some (tables (create_table_if_not_exists name cols s) !! name).
Proof.
  unfold create_table_if_not_exists.
  destruct (tables s !! name) eqn:E; simpl; [by rewrite E |].
  rewrite lookup_insert_eq. by eexists.
Qed.

Lemma create_table_if_not_exists_keeps name cols s t :
  is_Some (tables s !! t) ->
  is_Some (tables (create_table_if_not_exists name cols s) !! t).
Proof.
  intros Ht. unfold create_table_if_not_exists.
  destruct (tables s !! name) eqn:E; simpl; [exact Ht |].
  destruct (decide (name = t)) as [-> | Hne].
  - rewrite lookup_insert_eq. by eexists.
  - by rewrite lookup_insert_ne.
Qed.


Lemma create_table_if_not_exists_done name cols s :
  is_Some (tables s !! name) -> create_table_if_not_exists name cols s = s.
Proof. intros [c Hc]. unfold create_table_if_not_exists. by rewrite Hc. Qed.

Lemma create_index_if_not_exists_inv name table cols s s' :
  create_index_if_not_exists name table cols s = inr s' ->
  tables s' = tables s
  /\ is_Some (indexes s' !! name)
  /\ (forall i, is_Some (indexes s !! i) -> is_Some (indexes s' !! i)).
Proof.
  unfold create_index_if_not_exists.
  destruct (indexes s !! name) eqn:Ei.
  - intros [= <-]. repeat split; [by rewrite Ei | done].
  - destruct (tables s !! table); [| done].
    destruct (bool_decide _); [| done].
    intros [= <-]. simpl. repeat split.
    + rewrite lookup_insert_eq. by eexists.
    + intros i Hi. destruct (decide (name = i)) as [-> | Hne].
      * rewrite lookup_insert_eq. by eexists.
      * by rewrite lookup_insert_ne.
Qed.

Lemma create_index_if_not_exists_done name table cols s :
  is_Some (indexes s !! name) -> create_index_if_not_exists name table cols s = inr s.
Proof. intros [c Hc]. unfold create_index_if_not_exists. by rewrite Hc. Qed.

(** The script on a schema that has its tables and indexes changes
    nothing. *)
Lemma SCHEMA_done s :
  is_Some (tables s !! "games") -> is_Some (tables s !! "move_evals") ->
  is_Some (tables s !! "live_state") ->
  is_Some (indexes s !! "idx_move_evals_game") ->
  is_Some (indexes s !! "idx_games_status") ->
  is_Some (indexes s !! "idx_games_started") ->
  SCHEMA s = inr s.
Proof.
  intros Hg Hm Hl Hi1 Hi2 Hi3. unfold SCHEMA.
  rewrite (create_table_if_not_exists_done "games" _ s) by assumption.
  rewrite (create_table_if_not_exists_done "move_evals" _ s) by assumption.
  rewrite (create_table_if_not_exists_done "live_state" _ s) by assumption.
  rewrite (create_index_if_not_exists_done "idx_move_evals_game" _ _ s) by assumption.
  rewrite (create_index_if_not_exists_done "idx_games_status" _ _ s) by assumption.
  apply create_index_if_not_exists_done. assumption.
Qed.

(** What the script leaves when it succeeds. *)
Lemma SCHEMA_inv s s' :
  SCHEMA s = inr s' ->
  is_Some (tables s' !! "games") /\ is_Some (tables s' !! "move_evals")
  /\ is_Some (tables s' !! "live_state")
  /\ is_Some (indexes s' !! "idx_move_evals_game")
  /\ is_Some (indexes s' !! "idx_games_status")
  /\ is_Some (indexes s' !! "idx_games_started").
Proof.
  unfold SCHEMA.
  set (s1 := create_table_if_not_exists "games" games_columns s).
  set (s2 := create_table_if_not_exists "move_evals" move_evals_columns s1).
  set (s3 := create_table_if_not_exists "live_state" live_state_columns s2).
  assert (Hg : is_Some (tables s3 !! "games")).
  { do 2 apply create_table_if_not_exists_keeps. apply create_table_if_not_exists_lookup. }
  assert (Hm : is_Some (tables s3 !! "move_evals")).
  { apply create_table_if_not_exists_keeps, create_table_if_not_exists_lookup. }
  assert (Hl : is_Some (tables s3 !! "live_state")).
  { apply create_table_if_not_exists_lookup. }
  destruct (create_index_if_not_exists "idx_move_evals_game" _ _ s3) as [e | s4] eqn:E4;
    [done |].
  destruct (create_index_if_not_exists "idx_games_status" _ _ s4) as [e | s5] eqn:E5;
    [done |].
  intros E6.
  apply create_index_if_not_exists_inv in E4 as (T4 & I4 & K4).
  apply create_index_if_not_exists_inv in E5 as (T5 & I5 & K5).
  apply create_index_if_not_exists_inv in E6 as (T6 & I6 & K6).
  rewrite T6, T5, T4. repeat split; auto.
Qed.

Lemma alter_table_add_column_inv table col s s' :
  alter_table_add_column table col s = inr s' ->
  (exists cols, tables s' !! table = Some cols /\ col ∈ cols)
  /\ (forall t, is_Some (tables s !! t) -> is_Some (tables s' !! t))
  /\ indexes s' = indexes s.
Proof.
  unfold alter_table_add_column. destruct (tables s !! table) as [tcols |] eqn:Et; [| done].
  destruct (bool_decide _); [done |]. intros [= <-]. simpl. repeat split.
  - exists (tcols ++ [col]). split; [apply lookup_insert_eq |].
    apply elem_of_app. right. by apply list_elem_of_singleton.
  - intros t Ht. destruct (decide (table = t)) as [-> | Hne].
    + rewrite lookup_insert_eq. by eexists.
    + by rewrite lookup_insert_ne.
Qed.

Lemma alter_table_add_column_refused table col s :
  is_Some (tables s !! table) ->
  alter_table_add_column table col s = inl OperationalError ->
  exists cols, tables s !! table = Some cols /\ col ∈ cols.
Proof.
  intros [tcols Ht]. unfold alter_table_add_column. rewrite Ht.
  case_bool_decide as E; [| done].
  intros _. exists tcols. by split.
Qed.

Lemma alter_table_add_column_done table col s :
  (exists cols, tables s !! table = Some cols /\ col ∈ cols) ->
  alter_table_add_column table col s = inl OperationalError.
Proof.
  intros (cols & Ht & Hc). unfold alter_table_add_column. rewrite Ht.
  by rewrite bool_decide_eq_true_2.
Qed.

(** A logger that [__init__] built has an [initialised] schema and the
    rows of its file. *)
Lemma init_inv db_path file fs w :
  __init__ db_path file fs = inr w ->
  initialised (schema w) /\ committed w = file_rows file /\ working w = file_rows file.
Proof.
  unfold __init__. destruct (SCHEMA (file_schema file)) as [e | s1] eqn:E1; [done |].
  apply SCHEMA_inv in E1 as (Hg & Hm & Hl & I1 & I2 & I3).
  destruct (alter_table_add_column "games" "moves_uci" s1) as [e | s2] eqn:E2.
  - destruct e; try done. intros [= <-]. simpl. unfold initialised.
    repeat split; try assumption. by apply alter_table_add_column_refused.
  - intros [= <-]. simpl.
    apply alter_table_add_column_inv in E2 as (Hc & Hk & Hi).
    unfold initialised. rewrite Hi. repeat split; auto.
Qed.

(** [__init__] on a file whose schema is [initialised] keeps the schema
    and the rows. *)
Lemma init_initialised db_path file fs :
  initialised (file_schema file) ->
  exists w, __init__ db_path file fs = inr w
            /\ schema w = file_schema file
            /\ committed w = file_rows file /\ working w = file_rows file.
Proof.
  intros (Hg & Hm & Hl & I1 & I2 & I3). unfold __init__.
  rewrite SCHEMA_done; try assumption.
  - rewrite alter_table_add_column_done by exact Hg. by eexists.
  - destruct Hg as (cols & -> & _). by eexists.
Qed.

Ltac schema_side := idtac; simpl in *; assumption.

Section SchemaKept.
Context `{L : ChessLib}.
Variable s0 : Schema.

Lemma handler_schema game (msg : string -> string) :
  hoare (fun w => schema w = s0)
    (game_id <- getattr "id" (Game.id game) ;; logger_exception (msg game_id))
    (fun _ w => schema w = s0) (fun _ w => schema w = s0).
Proof. repeat step_with (fun w => schema w = s0) schema_side. Qed.

Lemma game_started_schema game provenance :
  hoare (fun w => schema w = s0) (game_started game provenance)
    (fun _ w => schema w = s0) (fun _ w => schema w = s0).
Proof.
  apply hoare_try_except with (M := fun _ w => schema w = s0);
    [| intros _; apply handler_schema].
  unfold game_started_body. repeat step_with (fun w => schema w = s0) schema_side.
Qed.

Lemma update_live_state_schema game board :
  hoare (fun w => schema w = s0) (update_live_state game board)
    (fun _ w => schema w = s0) (fun _ w => schema w = s0).
Proof.
  apply hoare_try_except with (M := fun _ w => schema w = s0);
    [| intros _; apply handler_schema].
  unfold update_live_state_body. repeat step_with (fun w => schema w = s0) schema_side.
Qed.

Lemma game_finished_schema game now :
  hoare (fun w => schema w = s0) (game_finished game now)
    (fun _ w => schema w = s0) (fun _ w => schema w = s0).
Proof.
  apply hoare_try_except with (M := fun _ w => schema w = s0);
    [| intros _; apply handler_schema].
  unfold game_finished_body. repeat step_with (fun w => schema w = s0) schema_side.
Qed.

Lemma move_played_schema game move commentary source :
  hoare (fun st : World * Board => schema st.1 = s0)
    (move_played game move commentary source)
    (fun _ st => schema st.1 = s0) (fun _ st => schema st.1 = s0).
Proof.
  apply hoare_try_except with (M := fun _ st => schema st.1 = s0).
  - unfold move_played_body.
    apply (hoare_keep_fst_bind (fun w => schema w = s0)); [apply on_snd_fst | intros stack].
    apply (hoare_keep_fst_bind (fun w => schema w = s0)); [apply on_snd_fst | intros _].
    apply (hoare_keep_fst_bind (fun w => schema w = s0)); [apply on_snd_fst | intros move_san].
    apply (hoare_keep_fst_bind (fun w => schema w = s0)); [apply on_snd_fst | intros _].
    apply (hoare_keep_fst_bind (fun w => schema w = s0));
      [intros st; by rewrite read_commentary_state | intros ev].
    apply hoare_getattr; [intros state _ | intros ? H; exact H].
    apply hoare_getattr; [intros is_white _ | intros ? H; exact H].
    apply hoare_getattr; [intros game_id _ | intros ? H; exact H].
    apply hoare_bind with (M := fun _ st => schema st.1 = s0); [| intros _].
    + apply hoare_on_fst. intros board. apply hoare_execute_with; intros w Hw; exact Hw.
    + apply hoare_on_fst. intros board. apply hoare_commit; intros w Hw; exact Hw.
  - intros _. apply hoare_getattr; [intros game_id _ | intros ? H; exact H].
    apply hoare_on_fst. intros board. apply hoare_modify. intros w Hw. exact Hw.
Qed.

Lemma world_after_schema (c : Call) (w : World) :
  schema w = s0 -> schema (world_after c w) = s0.
Proof.
  intros Hw. destruct c as [game provenance | game board move commentary source
                           | game board | game now]; simpl; unfold after.
  - pose proof (game_started_schema game provenance w Hw) as H.
    by destruct (game_started game provenance w) as [[e | a] w'].
  - pose proof (move_played_schema game move commentary source (w, board) Hw) as H.
    by destruct (move_played game move commentary source (w, board)) as [[e | a] w'].
  - pose proof (update_live_state_schema game board w Hw) as H.
    by destruct (update_live_state game board w) as [[e | a] w'].
  - pose proof (game_finished_schema game now w Hw) as H.
    by destruct (game_finished game now w) as [[e | a] w'].
Qed.

Lemma world_after_all_schema (cs : list Call) (w : World) :
  schema w = s0 -> schema (world_after_all cs w) = s0.
Proof.
  revert w. induction cs as [| c cs IH]; intros w Hw; [exact Hw |].
  simpl. apply IH, world_after_schema, Hw.
Qed.

End SchemaKept.

(** C8: when [__init__] has built a logger on a file, it has kept the
    rows of the file; and constructing a logger again on the same
    location, at once or after any calls of the lifecycle operations,
    succeeds (the migration that is already applied does not make it
    fail), leaves the schema as it is, so no table, index or column is
    added a second time, and has the committed rows of the three tables
    unchanged. *)
Theorem initialisation_is_idempotent `{L : ChessLib} (db_path : string)
    (file : StoreFile) (fs fs' : list bool) (cs : list Call) (w : World) :
  __init__ db_path file fs = inr w ->
  committed w = file_rows file
  /\ exists w',
       __init__ db_path (file_of (world_after_all cs w)) fs' = inr w'
       /\ schema w' = schema w
       /\ committed w' = committed (world_after_all cs w)
       /\ working w' = committed (world_after_all cs w).
Proof.
  intros Hinit. apply init_inv in Hinit as (Hs & Hc & _). split; [exact Hc |].
  pose proof (world_after_all_schema (schema w) cs w eq_refl) as Hk.
  destruct (init_initialised db_path (file_of (world_after_all cs w)) fs') as (w' & Hw' & Hs' & Hc' & Hwk').
  { simpl. by rewrite Hk. }
  exists w'. simpl in *. repeat split; congruence.
Qed.

(** C8 on a new file, the second construction following the start of
    a game. *)
Lemma initialisation_is_idempotent_witness :
  committed (initial_world "test_games.db" []) = file_rows new_file
  /\ exists w',
       __init__ "test_games.db"
         (file_of (world_after_all [GameStarted MockGame_default "matchmaking"]
                     (initial_world "test_games.db" []))) []
       = inr w'
       /\ schema w' = schema (initial_world "test_games.db" [])
       /\ committed w'
          = committed (world_after_all [GameStarted MockGame_default "matchmaking"]
                         (initial_world "test_games.db" []))
       /\ working w'
          = committed (world_after_all [GameStarted MockGame_default "matchmaking"]
                         (initial_world "test_games.db" [])).
Proof.
  apply (initialisation_is_idempotent "test_games.db" new_file [] []
           [GameStarted MockGame_default "matchmaking"]
           (initial_world "test_games.db" [])).
  apply init_new_file.
Defined.

(** The migration: on a store of the schema without [games.moves_uci],
    [__init__] adds the column and keeps the rows. *)
Lemma init_legacy_file db_path rows fs :
  exists w, __init__ db_path (legacy_file rows) fs = inr w
            /\ schema w = schema (initial_world db_path fs)
            /\ committed w = rows.
Proof. eexists. split; [vm_compute; reflexivity |]. by split. Qed.

(** ** What a completed [move_played] has done *)

Lemma unsnoc_snoc {A} (l : list A) (x : A) : unsnoc (l ++ [x]) = Some (l, x).
Proof. induction l as [| y l IH]; [reflexivity |]. simpl. by rewrite IH. Qed.

Lemma unsnoc_Some {A} (l front : list A) (x : A) :
  unsnoc l = Some (front, x) -> l = front ++ [x].
Proof.
  revert front. induction l as [| y l IH]; intros front; [done |]. simpl.
  destruct (unsnoc l) as [[f z] |] eqn:E.
  - intros [= <- <-]. simpl. f_equal. by apply IH.
  - intros [= <- <-]. destruct l as [| z l]; [reflexivity |].
    simpl in E. by destruct (unsnoc l) as [[? ?] |].
Qed.

Lemma read_commentary_pure {S T} commentary (s : S) (t : T) :
  (read_commentary commentary s).1 = (read_commentary commentary t).1.
Proof.
  unfold read_commentary. destruct commentary as [c |]; [| reflexivity].
  destruct (Commentary.truthy c); [| reflexivity].
  unfold bind. destruct (Commentary.time c) as [tv |]; [| reflexivity].
  unfold lift_result. by destruct (time_ms_of tv).
Qed.

Section MovePlayed.
Context `{L : ChessLib}.

Lemma move_played_body_inv game move commentary source w board w' board' :
  move_played_body game move commentary source (w, board) = (inr tt, (w', board')) ->
  exists front last move_san ev state is_white game_id,
    move_stack board = front ++ [last]
    /\ position_san (position {| root := root board; move_stack := front |}) move
       = Some move_san
    /\ (read_commentary commentary w).1 = inr ev
    /\ Game.state game = Some state
    /\ Game.is_white game = Some is_white
    /\ Game.id game = Some game_id
    /\ board' = {| root := root board; move_stack := front ++ [move] |}
    /\ working w'
       = insert_move_evals
           (fun rowid =>
              {| MoveEvals.id := rowid;
                 MoveEvals.game_id := game_id;
                 MoveEvals.ply := Some (Z.of_nat (length (move_stack board)) - 1);
                 MoveEvals.move_uci := Some (uci move);
                 MoveEvals.move_san := Some move_san;
                 MoveEvals.eval_cp := eval_cp ev;
                 MoveEvals.eval_mate := eval_mate ev;
                 MoveEvals.depth := depth ev;
                 MoveEvals.pv := pv_str ev;
                 MoveEvals.nodes := nodes ev;
                 MoveEvals.nps := nps ev;
                 MoveEvals.time_ms := time_ms ev;
                 MoveEvals.source := Some source;
                 MoveEvals.clock_ms :=
                   if is_white then State.wtime state else State.btime state |})
           (working w)
    /\ committed w' = working w'.
Proof.
  unfold move_played_body, bind at 1 2, on_snd at 1 2, gets, pop. simpl.
  destruct (unsnoc (move_stack board)) as [[front last] |] eqn:Eu; simpl; [| done].
  apply unsnoc_Some in Eu.
  unfold bind at 1, on_snd at 1, san. simpl. unfold position at 1. simpl.
  destruct (position_san (fold_left play front (root board)) move) as [move_san |] eqn:Es;
    simpl; [| done].
  unfold bind at 1, on_snd at 1, push, modify. simpl.
  unfold bind at 1.
  pose proof (read_commentary_state commentary
                (w, {| root := root board; move_stack := front ++ [move] |})) as Hst.
  pose proof (read_commentary_pure commentary
                (w, {| root := root board; move_stack := front ++ [move] |}) w) as Hpure.
  destruct (read_commentary commentary
              (w, {| root := root board; move_stack := front ++ [move] |}))
    as [[e | ev] st]; simpl in Hst, Hpure; subst st; [done |].
  unfold bind at 1, getattr at 1.
  destruct (Game.state game) as [state |]; simpl; [| done].
  unfold bind at 1, getattr at 1.
  destruct (Game.is_white game) as [is_white |]; simpl; [| done].
  unfold bind at 1, getattr at 1.
  destruct (Game.id game) as [game_id |]; simpl; [| done].
  unfold bind at 1, on_fst at 1, execute_with. cbn [fst snd].
  destruct (bindable _); [| done].
  unfold bind, on_fst, execute, commit, next_fault, bind. simpl.
  destruct (default false (head (faults w))); simpl; [done |].
  destruct (default false (head (tail (faults w)))); simpl; [done |].
  intros [= <- <-].
  exists front, last, move_san, ev, state, is_white, game_id.
  repeat split; try done.
Qed.

(** The row a completed call has appended. *)
Lemma move_played_body_row game move commentary source w board w' board' :
  move_played_body game move commentary source (w, board) = (inr tt, (w', board')) ->
  exists r ev,
    move_evals (working w') = move_evals (working w) ++ [r]
    /\ (read_commentary commentary w).1 = inr ev
    /\ MoveEvals.ply r = Some (Z.of_nat (length (move_stack board)) - 1)
    /\ MoveEvals.move_uci r = Some (uci move)
    /\ MoveEvals.eval_cp r = eval_cp ev
    /\ MoveEvals.eval_mate r = eval_mate ev
    /\ MoveEvals.time_ms r = time_ms ev.
Proof.
  intros H. apply move_played_body_inv in H
    as (front & last & move_san & ev & state & is_white & game_id
        & _ & _ & Hev & _ & _ & _ & _ & Hw & _).
  eexists _, ev. rewrite Hw. simpl. repeat split; try reflexivity. exact Hev.
Qed.

(** ** C10: the board is given back as it was *)

(** C10, as the code has it: when the move passed is the last entry of
    the move stack of the board and the body of [move_played] completes,
    the board is after the call what it was before: the move retracted
    is the move pushed again. *)
Theorem move_played_restores_board game move commentary source w board w' board' front :
  move_stack board = front ++ [move] ->
  move_played_body game move commentary source (w, board) = (inr tt, (w', board')) ->
  board' = board.
Proof.
  intros Hstack H. apply move_played_body_inv in H
    as (front' & last & move_san & ev & state & is_white & game_id
        & Hs & _ & _ & _ & _ & _ & -> & _).
  rewrite Hstack in Hs. apply app_inj_tail in Hs as [<- _].
  destruct board as [r s]. simpl in *. by rewrite Hstack.
Qed.

(** ** C4: ply and notation *)

Lemma pre_move_san_snoc (start : Position) (front : list Move) (move : Move) :
  pre_move_san {| root := start; move_stack := front ++ [move] |}
  = position_san (position {| root := start; move_stack := front |}) move.
Proof. unfold pre_move_san. simpl. by rewrite unsnoc_snoc. Qed.

Lemma last_uci_snoc (start : Position) (front : list Move) (move : Move) :
  last_uci {| root := start; move_stack := front ++ [move] |} = Some (uci move).
Proof. unfold last_uci. simpl. by rewrite unsnoc_snoc. Qed.

Lemma logged_rows game boards w w' :
  logged game boards w w' ->
  exists rows,
    move_evals (working w') = move_evals (working w) ++ rows
    /\ map MoveEvals.ply rows
       = map (fun b => Some (Z.of_nat (length (move_stack b)) - 1)) boards
    /\ map MoveEvals.move_uci rows = map last_uci boards
    /\ map MoveEvals.move_san rows = map pre_move_san boards
    /\ Forall (fun r => is_Some (MoveEvals.move_san r)) rows.
Proof.
  induction 1 as [w | board front move commentary source boards w w1 w2 board'
                      Hstack Hbody Hrest IH].
  - exists []. rewrite app_nil_r. repeat split. apply Forall_nil_2.
  - destruct IH as (rows & Hrows & Hply & Huci & Hsan & Hsome).
    apply move_played_body_inv in Hbody
      as (front' & last & move_san & ev & state & is_white & game_id
          & Hs & Hmsan & _ & _ & _ & _ & _ & Hw & _).
    rewrite Hstack in Hs. apply app_inj_tail in Hs as [<- <-].
    destruct board as [start stack]. simpl in *. subst stack.
    eexists (_ :: rows). rewrite Hrows, Hw. simpl. rewrite <- app_assoc. simpl.
    repeat split.
    + by rewrite Hply.
    + by rewrite Huci, last_uci_snoc.
    + by rewrite Hsan, pre_move_san_snoc, Hmsan.
    + apply Forall_cons. split; [by eexists | exact Hsome].
Qed.

Lemma lookup_seq_fmap {A B} (f : A -> B) (l : list A) :
  map (fun k => f <$> l !! k) (seq 0 (length l)) = map (fun x => Some (f x)) l.
Proof.
  apply list_eq. intros i. rewrite !list_lookup_fmap.
  destruct (decide (i < length l)%nat) as [Hi | Hi].
  - rewrite lookup_seq_lt by exact Hi. simpl.
    destruct (lookup_lt_is_Some_2 l i Hi) as [x Hx]. by rewrite Hx.
  - rewrite lookup_seq_ge by lia. rewrite lookup_ge_None_2 by lia. reflexivity.
Qed.

Lemma boards_of_game_plies (start : Position) (line : list Move) (ks : list nat) :
  Forall (fun k => (k < length line)%nat) ks ->
  map (fun b => Some (Z.of_nat (length (move_stack b)) - 1))
    (boards_of_game start line ks)
  = map (fun k => Some (Z.of_nat k)) ks.
Proof.
  intros Hks. unfold boards_of_game. rewrite map_map. simpl.
  apply map_ext_Forall. eapply Forall_impl; [exact Hks |]. intros k Hk. simpl in *.
  rewrite length_take. f_equal. lia.
Qed.

Lemma boards_of_game_uci (start : Position) (line : list Move) (ks : list nat) :
  Forall (fun k => (k < length line)%nat) ks ->
  map last_uci (boards_of_game start line ks) = map (fun k => uci <$> line !! k) ks.
Proof.
  intros Hks. unfold boards_of_game. rewrite map_map.
  apply map_ext_Forall. eapply Forall_impl; [exact Hks |]. intros k Hk. simpl in *.
  destruct (lookup_lt_is_Some_2 line k Hk) as [m Hm].
  rewrite (take_S_r _ _ _ Hm), last_uci_snoc. by rewrite Hm.
Qed.

(** C4, as the code has it.  For calls of [move_played] that complete,
    each on a board whose last move is the move passed: each call
    appends one row, whose ply is the length of the move stack of its
    board minus one and whose notation is that of the move in the
    position before it.  So, when the boards are those of one game after
    the plies [ks], the plies recorded are [ks] in order (strictly
    increasing when [ks] is, and starting at 0 only when the first move
    logged is the first of the game), each row has the move of the game
    at its ply, and the rows are the whole move sequence when a call is
    made after every ply. *)
Theorem logged_plies_and_notations game boards w w' :
  logged game boards w w' ->
  exists rows,
    move_evals (working w') = move_evals (working w) ++ rows
    /\ map MoveEvals.ply rows
       = map (fun b => Some (Z.of_nat (length (move_stack b)) - 1)) boards
    /\ map MoveEvals.move_san rows = map pre_move_san boards
    /\ Forall (fun r => is_Some (MoveEvals.move_san r)) rows
    /\ forall start line ks,
         boards = boards_of_game start line ks ->
         Forall (fun k => (k < length line)%nat) ks ->
         map MoveEvals.ply rows = map (fun k => Some (Z.of_nat k)) ks
         /\ map MoveEvals.move_uci rows = map (fun k => uci <$> line !! k) ks
         /\ (ks = seq 0 (length line) ->
             map MoveEvals.move_uci rows = map (fun m => Some (uci m)) line).
Proof.
  intros H. apply logged_rows in H as (rows & Hrows & Hply & Huci & Hsan & Hsome).
  exists rows. repeat split; try assumption.
  - subst boards. rewrite Hply. by apply boards_of_game_plies.
  - subst boards. rewrite Huci. by apply boards_of_game_uci.
  - intros ->. subst boards. rewrite Huci, boards_of_game_uci by assumption.
    apply lookup_seq_fmap.
Qed.

(** ** C5 and C6: what is read from the evaluation bundle *)

Lemma read_commentary_score {S} (cm : Commentary.t) (p : PovScore) (s : S) ev :
  (read_commentary (Some cm) s).1 = inr ev ->
  Commentary.score cm = Some p ->
  eval_mate ev = (if is_mate (white p) then mate (white p) else None)
  /\ eval_cp ev = (if is_mate (white p) then None else score (white p)).
Proof.
  unfold read_commentary, Commentary.truthy. intros H Hp. rewrite Hp in H.
  rewrite bool_decide_eq_true_2 in H by (by eexists). simpl in H.
  unfold bind in H. destruct (Commentary.time cm) as [tv |]; simpl in H.
  - unfold lift_result in H. destruct (time_ms_of tv); simpl in H; [done |].
    injection H as <-. by split.
  - injection H as <-. by split.
Qed.

Lemma read_commentary_time {S} (cm : Commentary.t) (tv : TimeVal) (s : S) ev :
  (read_commentary (Some cm) s).1 = inr ev ->
  Commentary.time cm = Some tv ->
  exists z, time_ms_of tv = inr z /\ time_ms ev = Some z.
Proof.
  unfold read_commentary, Commentary.truthy. intros H Ht. rewrite Ht in H.
  rewrite (bool_decide_eq_true_2 (is_Some (Some tv))) in H by (by eexists).
  rewrite !orb_true_r in H. simpl in H.
  unfold bind, lift_result in H. destruct (time_ms_of tv) as [e | z]; simpl in H; [done |].
  injection H as <-. by exists z.
Qed.

Lemma white_mate_sign (p : PovScore) :
  (white_is_mating p -> exists n, white p = Mate n /\ 0 < n)
  /\ (black_is_mating p -> exists n, white p = Mate n /\ n < 0).
Proof.
  unfold white_is_mating, black_is_mating, white.
  destruct p as [[cp | n |] [|]]; simpl; split; try done.
  - intros Hn. by exists n.
  - intros Hn. by exists n.
  - intros Hn. exists (- n). rewrite (proj2 (Z.eqb_neq n 0)) by lia. split; [done | lia].
  - intros Hn. exists (- n). rewrite (proj2 (Z.eqb_neq n 0)) by lia. split; [done | lia].
Qed.

(** C5: when the evaluation bundle of a call of [move_played] that
    completes has a score, the row appended has exactly one of
    [eval_mate] and [eval_cp]: for a White-normalised score that is a
    mate, [eval_mate] is its signed distance and [eval_cp] is NULL;
    otherwise [eval_cp] is its centipawns and [eval_mate] is NULL.  The
    distance is positive when White is mating and negative when Black
    is. *)
Theorem evaluation_fields_are_exclusive game move (cm : Commentary.t) (p : PovScore)
    source w board w' board' :
  move_played_body game move (Some cm) source (w, board) = (inr tt, (w', board')) ->
  Commentary.score cm = Some p ->
  exists r,
    move_evals (working w') = move_evals (working w) ++ [r]
    /\ (if is_mate (white p)
        then MoveEvals.eval_mate r = mate (white p)
             /\ is_Some (MoveEvals.eval_mate r) /\ MoveEvals.eval_cp r = None
        else MoveEvals.eval_cp r = score (white p)
             /\ is_Some (MoveEvals.eval_cp r) /\ MoveEvals.eval_mate r = None)
    /\ (white_is_mating p -> exists n, MoveEvals.eval_mate r = Some n /\ 0 < n)
    /\ (black_is_mating p -> exists n, MoveEvals.eval_mate r = Some n /\ n < 0).
Proof.
  intros H Hp. apply move_played_body_row in H
    as (r & ev & Hrows & Hev & _ & _ & Hcp & Hmate & _).
  destruct (read_commentary_score cm p w ev Hev Hp) as [Hm Hc].
  exists r. rewrite Hcp, Hmate, Hm, Hc. split; [exact Hrows |].
  destruct (white_mate_sign p) as [Hwhite Hblack]. repeat split.
  - destruct (white p) as [cp | n |]; simpl; repeat split; by eexists.
  - intros Hw. destruct (Hwhite Hw) as (n & -> & Hn). by exists n.
  - intros Hb. destruct (Hblack Hb) as (n & -> & Hn). by exists n.
Qed.

(** C6: when the evaluation bundle of a call of [move_played] that
    completes has an elapsed time, the [time_ms] of the row appended is
    an integer: for a float, the float times 1000, truncated towards
    zero; for an integer, the integer itself.  The float 0.05 gives
    50. *)
Theorem elapsed_time_is_stored_in_milliseconds game move (cm : Commentary.t)
    (tv : TimeVal) source w board w' board' :
  move_played_body game move (Some cm) source (w, board) = (inr tt, (w', board')) ->
  Commentary.time cm = Some tv ->
  (exists r,
     move_evals (working w') = move_evals (working w) ++ [r]
     /\ match tv with
        | TimeFloat f =>
            exists z, int_of_float (PrimFloat.mul f (float_of_Z 1000)) = inr z
                      /\ MoveEvals.time_ms r = Some z
        | TimeInt z => MoveEvals.time_ms r = Some z
        end)
  /\ time_ms_of (TimeFloat float_0_05) = inr 50.
Proof.
  intros H Ht. split; [| vm_compute; reflexivity].
  apply move_played_body_row in H as (r & ev & Hrows & Hev & _ & _ & _ & _ & Htime).
  destruct (read_commentary_time cm tv w ev Hev Ht) as (z & Hz & Hms).
  exists r. split; [exact Hrows |]. rewrite Htime, Hms.
  destruct tv as [f | n]; simpl in Hz.
  - by exists z.
  - by injection Hz as ->.
Qed.

End MovePlayed.

(** The two calls of [move_played] of [test_complete_game]. *)
Lemma logged_complete_game :
  logged MockGame_default (boards_of_game (L := opening_lines) [] ["e2e4"; "e7e5"; "g1f3"] [0; 2]%nat)
    world_started world_Nf3.
Proof.
  apply (logged_cons (L := opening_lines) _ (board_after ["e2e4"]) [] "e2e4"
           (Some (make_commentary (Cp 30) 12)) "book" _
           world_started world_e4 world_Nf3 (board_after ["e2e4"]));
    [reflexivity | vm_compute; reflexivity |].
  apply (logged_cons (L := opening_lines) _ (board_after ["e2e4"; "e7e5"; "g1f3"]) ["e2e4"; "e7e5"] "g1f3"
           (Some (make_commentary (Cp 25) 14)) "search" _
           world_e4 world_Nf3 world_Nf3 (board_after ["e2e4"; "e7e5"; "g1f3"]));
    [reflexivity | vm_compute; reflexivity |].
  apply logged_nil.
Defined.

(** C4 on [test_complete_game]: the bot, White, logs its moves at the
    plies 0 and 2. *)
Lemma logged_plies_and_notations_witness :
  exists rows,
    move_evals (working world_Nf3) = move_evals (working world_started) ++ rows
    /\ map MoveEvals.ply rows
       = map (fun b => Some (Z.of_nat (length (move_stack b)) - 1))
           (boards_of_game (L := opening_lines) [] ["e2e4"; "e7e5"; "g1f3"] [0; 2]%nat)
    /\ map MoveEvals.move_san rows
       = map pre_move_san (boards_of_game (L := opening_lines) [] ["e2e4"; "e7e5"; "g1f3"] [0; 2]%nat)
    /\ Forall (fun r => is_Some (MoveEvals.move_san r)) rows
    /\ forall start line ks,
         boards_of_game (L := opening_lines) [] ["e2e4"; "e7e5"; "g1f3"] [0; 2]%nat
         = boards_of_game start line ks ->
         Forall (fun k => (k < length line)%nat) ks ->
         map MoveEvals.ply rows = map (fun k => Some (Z.of_nat k)) ks
         /\ map MoveEvals.move_uci rows = map (fun k => uci <$> line !! k) ks
         /\ (ks = seq 0 (length line) ->
             map MoveEvals.move_uci rows = map (fun m => Some (uci m)) line).
Proof.
  apply (logged_plies_and_notations (L := opening_lines) MockGame_default
           (boards_of_game (L := opening_lines) [] ["e2e4"; "e7e5"; "g1f3"] [0; 2]%nat)
           world_started world_Nf3).
  exact logged_complete_game.
Defined.

(** C4 as stated fails on [test_black_clock_tracking]: the bot is Black,
    its first call of [move_played] comes after 1. e4 e5, on a board
    whose last move is the move passed, and the only row of the game has
    ply 1: the plies do not start at 0, and the rows are not the move
    sequence e2e4 e7e5. *)
Lemma first_ply_of_black_is_not_zero :
  last_uci (board_after ["e2e4"; "e7e5"]) = Some "e7e5"
  /\ map MoveEvals.ply (move_evals (working world_black_e5)) = [Some 1]
  /\ map MoveEvals.move_uci (move_evals (working world_black_e5)) = [Some "e7e5"]
  /\ map MoveEvals.move_uci (move_evals (working world_black_e5))
     ≠ [Some "e2e4"; Some "e7e5"].
Proof. vm_compute. repeat split; done. Qed.

(** C10 on the first call of [test_complete_game]. *)
Lemma move_played_restores_board_witness : board_after ["e2e4"] = board_after ["e2e4"].
Proof.
  apply (move_played_restores_board (L := opening_lines) MockGame_default "e2e4"
           (Some (make_commentary (Cp 30) 12)) "book"
           world_started (board_after ["e2e4"]) world_e4 (board_after ["e2e4"]) []);
    [reflexivity | vm_compute; reflexivity].
Defined.

(** C10 as stated fails: on the board after 1. e4 e5 a call with the
    move g8f6, legal once e7e5 is retracted, completes its body and
    leaves the board with the moves e2e4 g8f6. *)
Lemma move_played_replaces_other_move :
  call_with_other_move.1 = inr tt
  /\ move_stack (call_with_other_move.2).2 = ["e2e4"; "g8f6"]
  /\ (call_with_other_move.2).2 ≠ board_after ["e2e4"; "e7e5"].
Proof. vm_compute. repeat split; done. Qed.

(** C5 on [make_commentary(mate=-5)], the score of
    [test_negative_mate_score]. *)
Lemma evaluation_fields_are_exclusive_witness :
  exists r,
    move_evals (working (after (move_played MockGame_default "e2e4"
                                  (Some (make_commentary (Mate (-5)) 12)) "search")
                           (world_started, board_after ["e2e4"])).1)
    = move_evals (working world_started) ++ [r]
    /\ (if is_mate (white {| relative := Mate (-5); turn := WHITE |})
        then MoveEvals.eval_mate r = mate (white {| relative := Mate (-5); turn := WHITE |})
             /\ is_Some (MoveEvals.eval_mate r) /\ MoveEvals.eval_cp r = None
        else MoveEvals.eval_cp r = score (white {| relative := Mate (-5); turn := WHITE |})
             /\ is_Some (MoveEvals.eval_cp r) /\ MoveEvals.eval_mate r = None)
    /\ (white_is_mating {| relative := Mate (-5); turn := WHITE |} ->
        exists n, MoveEvals.eval_mate r = Some n /\ 0 < n)
    /\ (black_is_mating {| relative := Mate (-5); turn := WHITE |} ->
        exists n, MoveEvals.eval_mate r = Some n /\ n < 0).
Proof.
  apply (evaluation_fields_are_exclusive (L := opening_lines) MockGame_default "e2e4"
           (make_commentary (Mate (-5)) 12) {| relative := Mate (-5); turn := WHITE |}
           "search" world_started (board_after ["e2e4"]) _ (board_after ["e2e4"]));
    [vm_compute; reflexivity | reflexivity].
Defined.

(** C6 on the bundle of [test_with_commentary], whose elapsed time is
    the float 0.05. *)
Lemma elapsed_time_is_stored_in_milliseconds_witness :
  (exists r,
     move_evals (working world_e4) = move_evals (working world_started) ++ [r]
     /\ exists z, int_of_float (PrimFloat.mul float_0_05 (float_of_Z 1000)) = inr z
                  /\ MoveEvals.time_ms r = Some z)
  /\ time_ms_of (TimeFloat float_0_05) = inr 50.
Proof.
  apply (elapsed_time_is_stored_in_milliseconds (L := opening_lines) MockGame_default "e2e4"
           (make_commentary (Cp 30) 12) (TimeFloat float_0_05) "book"
           world_started (board_after ["e2e4"]) world_e4 (board_after ["e2e4"]));
    [vm_compute; reflexivity | reflexivity].
Defined.

(** The rows of [test_with_commentary] and of an integer elapsed time. *)
Lemma time_ms_examples :
  map MoveEvals.time_ms (move_evals (working world_e4)) = [Some 50]
  /\ time_ms_of (TimeInt 50) = inr 50
  /\ time_ms_of (TimeFloat 0x1.8p+0%float) = inr 1500
  /\ int_of_float 0x1.cp+1%float = inr 3
  /\ int_of_float (-0x1.cp+1)%float = inr (-3).
Proof. vm_compute. repeat split. Qed.

(** ** When nothing fails *)

Lemma bind_eq {S A B} (c : py S A) (k : A -> py S B) (s s' : S) (a : A) :
  c s = (inr a, s') -> bind c k s = k a s'.
Proof. intros H. unfold bind. by rewrite H. Qed.

Lemma bind_getattr_some {S A B} attr (o : option A) (a : A) (k : A -> py S B) (s : S) :
  o = Some a -> bind (getattr attr o) k s = k a s.
Proof. by intros ->. Qed.

Lemma bind_lift_result_inr {S A B} (r : exn + A) (a : A) (k : A -> py S B) (s : S) :
  r = inr a -> bind (lift_result r) k s = k a s.
Proof. by intros ->. Qed.

Lemma execute_calm statement w :
  default false (head (faults w)) = false ->
  execute statement w = (inr tt, set_working statement (answered w)).
Proof. intros Hf. unfold execute, bind, next_fault. by rewrite Hf. Qed.

Lemma fetchone_calm {A} (query : DB -> option A) w :
  default false (head (faults w)) = false ->
  fetchone query w = (inr (query (working w)), answered w).
Proof. intros Hf. unfold fetchone, bind, next_fault. by rewrite Hf. Qed.

Lemma commit_calm w :
  default false (head (faults w)) = false ->
  commit w = (inr tt, publish (answered w)).
Proof. intros Hf. unfold commit, bind, next_fault. by rewrite Hf. Qed.

Lemma execute_with_calm ints statement w :
  bindable ints = true -> default false (head (faults w)) = false ->
  execute_with ints statement w = (inr tt, set_working statement (answered w)).
Proof. intros Hb Hf. unfold execute_with. rewrite Hb. by apply execute_calm. Qed.

Lemma bindable_rating (r : option Z) (b : bool) :
  bindable [r] = true -> bindable [r; Some (if b then 1 else 0)] = true.
Proof.
  unfold bindable. simpl. rewrite !andb_true_r. intros ->. by destruct b.
Qed.

Lemma bindable_clocks (ms : Z) :
  sqlite_integer ms = true -> bindable [Some ms; Some ms] = true.
Proof. unfold bindable. simpl. by intros ->. Qed.

(** Rewriting the next step of a body that does not fail. *)
Ltac run_step :=
  first
    [ erewrite bind_getattr_some by eassumption
    | erewrite bind_lift_result_inr by eassumption
    | erewrite bind_eq by (apply execute_calm; simpl; assumption)
    | erewrite bind_eq by (apply execute_with_calm; [eassumption | simpl; assumption])
    | erewrite bind_eq by (apply fetchone_calm; simpl; assumption)
    | erewrite bind_eq by (apply commit_calm; simpl; assumption) ];
  cbv beta zeta.

(** [game_started] on a descriptor that has what it reads, with an
    initial clock that converts, and without storage-engine error:
    the two rows are written and committed. *)
Lemma game_started_ok game provenance w game_id ci ms :
  well_formed game -> Game.id game = Some game_id ->
  Game.clock_initial game = Some ci -> clock_initial_ms ci = inr ms ->
  sqlite_integer ms = true ->
  calm 3 w ->
  exists w',
    game_started game provenance w = (inr tt, w')
    /\ working w'
       = insert_or_replace_live_state (started_live_state_row game_id ms)
           (insert_or_replace_games (started_games_row game provenance game_id)
              (working w))
    /\ committed w' = working w'.
Proof.
  intros (_ & [url Hurl] & [color Hcolor] & (p & Hp & [n Hn] & (r & Hr & Hfits) & [b Hb])
          & [tc Htc] & [sp Hsp] & [md Hmd] & [gs Hgs] & _) Hid Hci Hms Hmsfits Hcalm.
  destruct Hcalm as (F1 & F2 & F3 & _).
  pose proof (bindable_rating r b Hfits) as B1.
  pose proof (bindable_clocks ms Hmsfits) as B2.
  unfold game_started, try_except, game_started_body.
  repeat run_step.
  simpl. eexists. split; [reflexivity |]. simpl.
  unfold started_games_row, started_live_state_row.
  rewrite Hurl, Hcolor, Hp, Htc, Hsp, Hmd, Hgs, Hn, Hr, Hb. split; reflexivity.
Qed.

(** ** C2: what [game_started] writes *)





Lemma games_of_insert_or_replace r d :
  games_of (Games.game_id r) (insert_or_replace_games r d) = [r].
Proof.
  unfold games_of. simpl. rewrite (filter_key_snoc_same Games.game_id).
  by rewrite (filter_key_gone Games.game_id).
Qed.

Lemma live_state_of_insert_or_replace r d :
  live_state_of (LiveState.game_id r) (insert_or_replace_live_state r d) = [r].
Proof.
  unfold live_state_of. simpl. rewrite (filter_key_snoc_same LiveState.game_id).
  by rewrite (filter_key_gone LiveState.game_id).
Qed.




(** ** C7: [update_live_state] overwrites *)

Lemma map_filter_key_set {A} (key : A -> string) (f : A -> A) (gid : string)
    (l : list A) :
  map (fun x => if bool_decide (key x = gid) then f x else x)
    (filter (fun x => key x = gid) l)
  = map f (filter (fun x => key x = gid) l).
Proof.
  apply map_ext_Forall, Forall_forall. intros x Hx.
  apply list_elem_of_filter in Hx as [Hx _]. by rewrite bool_decide_eq_true_2.
Qed.

Lemma live_state_of_update f l m wt bt gid d :
  live_state_of gid (update_live_state_where f l m wt bt gid d)
  = map (set_live_state f l m wt bt) (live_state_of gid d).
Proof.
  unfold live_state_of. simpl. rewrite (filter_key_map LiveState.game_id).
  - apply map_filter_key_set.
  - intros x. by destruct (bool_decide _).
Qed.

Lemma live_state_of_update_length f l m wt bt gid' gid d :
  length (live_state_of gid (update_live_state_where f l m wt bt gid' d))
  = length (live_state_of gid d).
Proof.
  unfold live_state_of. simpl. rewrite (filter_key_map LiveState.game_id).
  - apply length_map.
  - intros x. by destruct (bool_decide _).
Qed.

Section LiveRows.
Context `{L : ChessLib}.

(** Whatever its arguments and its outcome, a call of
    [update_live_state] leaves each game as many live rows as it had. *)
Lemma update_live_state_count game board gid n :
  hoare (fun w => length (live_state_of gid (working w)) = n)
    (update_live_state game board)
    (fun _ w => length (live_state_of gid (working w)) = n)
    (fun _ w => length (live_state_of gid (working w)) = n).
Proof.
  apply hoare_try_except
    with (M := fun _ w => length (live_state_of gid (working w)) = n).
  - unfold update_live_state_body. cbv zeta.
    apply hoare_getattr; [intros state _ | intros ? H; exact H].
    apply hoare_getattr; [intros game_id _ | intros ? H; exact H].
    apply hoare_bind
      with (M := fun _ w => length (live_state_of gid (working w)) = n); [| intros _].
    + apply hoare_execute_with; intros w Hw; simpl; [| exact Hw | exact Hw].
      by rewrite live_state_of_update_length.
    + apply hoare_commit; intros w Hw; exact Hw.
  - intros _. apply hoare_getattr; [intros game_id _ | intros ? H; exact H].
    apply hoare_modify. intros w Hw. exact Hw.
Qed.

Lemma update_live_state_all_count calls gid w :
  length (live_state_of gid (working (update_live_state_all calls w)))
  = length (live_state_of gid (working w)).
Proof.
  revert w. induction calls as [| [game board] calls IH]; intros w; [reflexivity |].
  simpl. rewrite IH. unfold after.
  pose proof (update_live_state_count game board gid _ w eq_refl) as H.
  by destruct (update_live_state game board w) as [[e | a] w'].
Qed.

(** A call that meets no failure rewrites the rows of its game. *)
Lemma update_live_state_ok game board state gid w :
  Game.state game = Some state -> Game.id game = Some gid -> clocks_fit state ->
  calm 2 w ->
  exists w',
    update_live_state game board w = (inr tt, w')
    /\ working w'
       = update_live_state_where (Some (fen board)) (last_uci board)
           (Some (joined_uci board)) (State.wtime state) (State.btime state) gid
           (working w)
    /\ committed w' = working w'.
Proof.
  intros Hstate Hid Hfit (F1 & F2 & _). unfold clocks_fit in Hfit.
  unfold update_live_state, try_except, update_live_state_body. cbv zeta.
  repeat run_step.
  erewrite commit_calm by (simpl; assumption).
  eexists. split; [reflexivity |]. by split.
Qed.

(** The code's join and last move are the specification's. *)
Lemma joined_uci_space_joined (board : Board) :
  joined_uci board = space_joined (map uci (move_stack board)).
Proof.
  unfold joined_uci. induction (map uci (move_stack board)) as [| x l IH]; [reflexivity |].
  simpl. destruct l as [| y l]; [reflexivity |]. by rewrite IH.
Qed.

Lemma last_uci_last (board : Board) :
  last_uci board = last (map uci (move_stack board)).
Proof.
  unfold last_uci. destruct (unsnoc (move_stack board)) as [[front m] |] eqn:E.
  - apply unsnoc_Some in E. rewrite E, map_app. simpl. by rewrite last_snoc.
  - destruct (move_stack board) as [| x l]; [reflexivity |]. simpl in E.
    by destruct (unsnoc l) as [[? ?] |].
Qed.

(** C7, as the code has it.  After a [game_started] of G that meets no
    failure and any calls of [update_live_state], whatever their games
    and outcomes, followed by a call for G that meets no failure (its
    descriptor has its state, the two clocks of the state are absent
    or integers of 64 bits, no storage-engine error), there is exactly
    one [live_state] row of G, committed, with the position notation
    of the board of that call, its last move (NULL when it has no
    move), the notations of its moves joined by single spaces in the
    order of play, and the two clocks of the state of that call.  After
    any calls of [update_live_state], whatever their outcome, the rows
    of G are still one: no call appends a row. *)
Theorem update_live_state_overwrites (started : Game.t) (provenance gid : string)
    (ci : timedelta) (ms : Z) (w : World) (calls : list (Game.t * Board))
    (game : Game.t) (board : Board) (state : State.t) :
  well_formed started -> Game.id started = Some gid ->
  Game.clock_initial started = Some ci -> clock_initial_ms ci = inr ms ->
  sqlite_integer ms = true -> calm 3 w ->
  Game.id game = Some gid -> Game.state game = Some state -> clocks_fit state ->
  calm 2 (update_live_state_all calls (after (game_started started provenance) w)) ->
  live_state_of gid
    (working (update_live_state_all (calls ++ [(game, board)])
                (after (game_started started provenance) w)))
  = [ {| LiveState.game_id := gid;
         LiveState.fen := Some (position_fen (position board));
         LiveState.last_move_uci := last (map uci (move_stack board));
         LiveState.moves_uci := Some (space_joined (map uci (move_stack board)));
         LiveState.wtime_ms := State.wtime state;
         LiveState.btime_ms := State.btime state |} ]
  /\ committed (update_live_state_all (calls ++ [(game, board)])
                  (after (game_started started provenance) w))
     = working (update_live_state_all (calls ++ [(game, board)])
                  (after (game_started started provenance) w))
  /\ forall others : list (Game.t * Board),
       length (live_state_of gid
                 (working (update_live_state_all others
                             (after (game_started started provenance) w)))) = 1%nat.
Proof.
  intros Hwf Hid0 Hci Hms Hmsfits Hcalm Hid Hstate Hfit Hcalm'.
  destruct (game_started_ok started provenance w gid ci ms Hwf Hid0 Hci Hms Hmsfits Hcalm)
    as (w1 & Hrun & Hw1 & _).
  unfold after at 1 2 3 4. rewrite Hrun. simpl.
  assert (Hone : forall others,
             length (live_state_of gid (working (update_live_state_all others w1)))
             = 1%nat).
  { intros others. rewrite update_live_state_all_count, Hw1.
    by rewrite (live_state_of_insert_or_replace (started_live_state_row gid _)). }
  unfold after in Hcalm'. rewrite Hrun in Hcalm'. simpl in Hcalm'.
  unfold update_live_state_all at 1 2 3. rewrite !fold_left_app. simpl.
  fold (update_live_state_all calls w1).
  destruct (update_live_state_ok game board state gid _ Hstate Hid Hfit Hcalm')
    as (w3 & Hrun3 & Hw3 & Hc3).
  unfold after. rewrite Hrun3. simpl. repeat split; [| exact Hc3 | exact Hone].
  rewrite Hw3, live_state_of_update.
  specialize (Hone calls).
  destruct (live_state_of gid (working (update_live_state_all calls w1)))
    as [| r [| r' rest]] eqn:E; try done.
  simpl. unfold set_live_state.
  rewrite joined_uci_space_joined, last_uci_last. unfold fen. do 2 f_equal.
  assert (Hr : r ∈ live_state_of gid (working (update_live_state_all calls w1)))
    by (rewrite E; apply list_elem_of_here).
  by apply list_elem_of_filter in Hr as [Hr _].
Qed.
End LiveRows.

(** C7 on [test_updates_fen_and_moves], after a first call on the board
    after 1. e4. *)
Lemma update_live_state_overwrites_witness :
  live_state_of "test_game_1"
    (working (update_live_state_all
                ([(MockGame_default, board_after ["e2e4"])]
                 ++ [(MockGame.descriptor
                        (mock_game "test_game_1" 175000 178000 None "started"),
                      board_after ["e2e4"; "e7e5"])])
                (after (game_started MockGame_default "matchmaking") fresh_world)))
  = [ {| LiveState.game_id := "test_game_1";
         LiveState.fen :=
           Some "rnbqkbnr/pppp1ppp/8/4p3/4P3/8/PPPP1PPP/RNBQKBNR w KQkq - 0 2";
         LiveState.last_move_uci := Some "e7e5";
         LiveState.moves_uci := Some "e2e4 e7e5";
         LiveState.wtime_ms := Some 175000;
         LiveState.btime_ms := Some 178000 |} ]
  /\ committed (update_live_state_all
                  ([(MockGame_default, board_after ["e2e4"])]
                   ++ [(MockGame.descriptor
                          (mock_game "test_game_1" 175000 178000 None "started"),
                        board_after ["e2e4"; "e7e5"])])
                  (after (game_started MockGame_default "matchmaking") fresh_world))
     = working (update_live_state_all
                  ([(MockGame_default, board_after ["e2e4"])]
                   ++ [(MockGame.descriptor
                          (mock_game "test_game_1" 175000 178000 None "started"),
                        board_after ["e2e4"; "e7e5"])])
                  (after (game_started MockGame_default "matchmaking") fresh_world))
  /\ forall others : list (Game.t * Board),
       length (live_state_of "test_game_1"
                 (working (update_live_state_all others
                             (after (game_started MockGame_default "matchmaking")
                                fresh_world)))) = 1%nat.
Proof.
  apply (update_live_state_overwrites (L := opening_lines) MockGame_default
           "matchmaking" "test_game_1" (timedelta_of_seconds 180) 180000 fresh_world
           [(MockGame_default, board_after ["e2e4"])]
           (MockGame.descriptor (mock_game "test_game_1" 175000 178000 None "started"))
           (board_after ["e2e4"; "e7e5"])
           {| State.wtime := Some 175000; State.btime := Some 178000;
              State.winner := None; State.status := Some "started" |}).
  - unfold well_formed. simpl. repeat (split || eexists).
  - reflexivity.
  - reflexivity.
  - vm_compute. reflexivity.
  - reflexivity.
  - vm_compute. repeat split.
  - reflexivity.
  - reflexivity.
  - reflexivity.
  - vm_compute. repeat split.
Defined.

(** C7 as stated fails: the operations swallow every failure, so a
    latest call that fails leaves the row with the values it had.  On
    the started game, a call on the board after 1. e4 e5 that meets a
    storage-engine error, or whose descriptor has no state, or whose
    clock of White is 2^63, returns, and the row still has the starting
    position and the empty move history, not the values of that call. *)
Lemma failed_update_keeps_the_old_row :
  space_joined (map uci (move_stack (board_after ["e2e4"; "e7e5"]))) = "e2e4 e7e5"
  /\ (returns (update_live_state MockGame_default (board_after ["e2e4"; "e7e5"]))
        world_started_failing_first
      /\ live_state_of "test_game_1"
           (working (after (update_live_state MockGame_default
                              (board_after ["e2e4"; "e7e5"]))
                       world_started_failing_first))
         = [started_live_state_row "test_game_1" 180000])
  /\ (returns (update_live_state MockGame_without_state (board_after ["e2e4"; "e7e5"]))
        world_started
      /\ live_state_of "test_game_1"
           (working (after (update_live_state MockGame_without_state
                              (board_after ["e2e4"; "e7e5"])) world_started))
         = [started_live_state_row "test_game_1" 180000])
  /\ (returns (update_live_state MockGame_huge_clock (board_after ["e2e4"; "e7e5"]))
        world_started
      /\ live_state_of "test_game_1"
           (working (after (update_live_state MockGame_huge_clock
                              (board_after ["e2e4"; "e7e5"])) world_started))
         = [started_live_state_row "test_game_1" 180000])
  /\ LiveState.moves_uci (started_live_state_row "test_game_1" 180000) = Some "".
Proof. vm_compute. repeat split. Qed.

(** The row of [test_updates_fen_and_moves], and a board without a
    move. *)
Lemma live_row_examples :
  fen (board_after ["e2e4"; "e7e5"])
  = "rnbqkbnr/pppp1ppp/8/4p3/4P3/8/PPPP1PPP/RNBQKBNR w KQkq - 0 2"
  /\ last_uci (board_after ["e2e4"; "e7e5"]) = Some "e7e5"
  /\ joined_uci (board_after ["e2e4"; "e7e5"]) = "e2e4 e7e5"
  /\ last_uci (board_after []) = None
  /\ joined_uci (board_after []) = "".
Proof. repeat split. Qed.

(** ** C3: what [game_finished] writes *)

Lemma games_of_update r t f m gid d :
  games_of gid (update_games_where r t f m gid d)
  = map (set_finished r t f m) (games_of gid d).
Proof.
  unfold games_of. simpl. rewrite (filter_key_map Games.game_id).
  - apply map_filter_key_set.
  - intros x. by destruct (bool_decide _).
Qed.

Lemma live_state_of_delete gid d :
  live_state_of gid (delete_live_state_where gid d) = [].
Proof. unfold live_state_of. simpl. apply (filter_key_gone LiveState.game_id). Qed.

(** [game_finished] on a descriptor with its [id], [state] and [result],
    without storage-engine error. *)
Lemma game_finished_ok game now state result gid w :
  Game.state game = Some state -> Game.result game = Some result ->
  Game.id game = Some gid -> calm 4 w ->
  exists w',
    game_finished game now w = (inr tt, w')
    /\ working w'
       = delete_live_state_where gid
           (update_games_where (Some result) (State.status state) (Some now)
              (default None (select_moves_uci_where gid (working w))) gid (working w))
    /\ committed w' = working w'.
Proof.
  intros Hstate Hresult Hid (F1 & F2 & F3 & F4 & _).
  unfold game_finished, try_except, game_finished_body.
  repeat run_step.
  simpl. eexists. split; [reflexivity |]. simpl.
  by destruct (select_moves_uci_where gid (working w)).
Qed.




(** The rows of the full game of the test-suite at its end: the move
    list that was live is on the final record, and no live row is
    left. *)
Lemma finished_game_example :
  map Games.moves_uci
    (games
       (working
          (after (game_finished
                    (MockGame.descriptor
                       (mock_game "test_game_1" 177000 178000 (Some "white") "mate"))
                    "2025-01-15T12:30:00+00:00")
             (after (update_live_state MockGame_default
                       (board_after ["e2e4"; "e7e5"; "g1f3"])) world_started))))
  = [Some "e2e4 e7e5 g1f3"]
  /\ live_state
       (working
          (after (game_finished
                    (MockGame.descriptor
                       (mock_game "test_game_1" 177000 178000 (Some "white") "mate"))
                    "2025-01-15T12:30:00+00:00")
             (after (update_live_state MockGame_default
                       (board_after ["e2e4"; "e7e5"; "g1f3"])) world_started)))
     = []
  /\ returns (game_finished (MockGame.descriptor (mock_game "does_not_exist" 0 0 None "started"))
                "2025-01-15T12:30:00+00:00") fresh_world.
Proof. vm_compute. repeat split. Qed.


(** ** One commit per operation *)

(** Whatever its arguments and the storage-engine errors,
    [game_finished] publishes nothing or, by its one commit, all that
    the connection has written. *)
Lemma game_finished_publishes_at_once game now w :
  committed (after (game_finished game now) w) = committed w
  \/ committed (after (game_finished game now) w)
     = working (after (game_finished game now) w).
Proof.
  set (I := fun w' : World => committed w' = committed w).
  set (J := fun w' : World => I w' \/ committed w' = working w').
  assert (H : hoare I (game_finished game now) (fun _ => J) (fun _ => J)).
  { apply hoare_try_except with (M := fun _ => J).
    - unfold game_finished_body.
      do 8 (step_with I ltac:(idtac; first [by left | exact id | assumption])).
      step_with I ltac:(idtac; first [by left | assumption]).
      apply hoare_bind with (M := fun _ w' => committed w' = working w'); [| intros _].
      + apply hoare_commit; intros w' Hw'; [reflexivity | by left].
      + apply hoare_getattr; [intros game_id _ | intros ? ?; by right].
        apply hoare_modify. intros w' Hw'. by right.
    - intros _. apply hoare_getattr; [intros game_id _ | intros ? H; exact H].
      apply hoare_modify. intros w' Hw'. exact Hw'. }
  specialize (H w eq_refl). unfold after.
  by destruct (game_finished game now w) as [[e | a] w'].
Qed.

(** A storage-engine error on the [DELETE] of [game_finished]: the
    operation returns, the error is logged, the [UPDATE] stays written
    in the connection, not committed, and the live row is still
    there. *)
Lemma game_finished_failing_delete :
  returns (game_finished
             (MockGame.descriptor (mock_game "test_game_1" 180000 180000 (Some "white") "mate"))
             "2025-01-15T12:30:00+00:00") world_started_failing_third
  /\ map Games.status
       (games (working (after (game_finished
                                 (MockGame.descriptor
                                    (mock_game "test_game_1" 180000 180000 (Some "white") "mate"))
                                 "2025-01-15T12:30:00+00:00") world_started_failing_third)))
     = [Some "finished"]
  /\ map Games.status
       (games (committed (after (game_finished
                                   (MockGame.descriptor
                                      (mock_game "test_game_1" 180000 180000 (Some "white") "mate"))
                                   "2025-01-15T12:30:00+00:00") world_started_failing_third)))
     = [Some "playing"]
  /\ length (live_state
               (working (after (game_finished
                                  (MockGame.descriptor
                                     (mock_game "test_game_1" 180000 180000 (Some "white") "mate"))
                                  "2025-01-15T12:30:00+00:00") world_started_failing_third)))
     = 1%nat
  /\ last (log (after (game_finished
                         (MockGame.descriptor
                            (mock_game "test_game_1" 180000 180000 (Some "white") "mate"))
                         "2025-01-15T12:30:00+00:00") world_started_failing_third))
     = Some (ERROR "Failed to log game end for test_game_1").
Proof. vm_compute. repeat split. Qed.

(** ** The operations, step by step *)

(** What settles a statement of a body whose worlds are to be reached
    from [w0] by steps. *)
Ltac steps_side :=
  idtac; cbv beta;
  repeat match goal with
    | |- context [set_faults (tail (faults ?w)) ?w] =>
        change (set_faults (tail (faults w)) w) with (answered w)
    end;
  lazymatch goal with
  | H : rtc step ?w0 ?w |- rtc step ?w0 ?w => exact H
  | H : rtc step ?w0 ?w |- rtc step ?w0 (answered ?w) =>
      eapply rtc_r; [exact H | apply step_answered]
  | H : rtc step ?w0 ?w |- rtc step ?w0 (set_working _ (answered ?w)) =>
      eapply rtc_r;
      [eapply rtc_r; [exact H | apply step_answered]
      | apply step_statement; constructor; intros; reflexivity]
  | H : rtc step ?w0 ?w |- rtc step ?w0 (publish (answered ?w)) =>
      eapply rtc_r; [eapply rtc_r; [exact H | apply step_answered] | apply step_publish]
  | H : rtc step ?w0 ?w |- rtc step ?w0 (add_log _ ?w) =>
      eapply rtc_r; [exact H | apply step_add_log]
  end.

Section Steps.
Context `{L : ChessLib}.
Variable w0 : World.

Lemma handler_steps game (msg : string -> string) :
  hoare (rtc step w0)
    (game_id <- getattr "id" (Game.id game) ;; logger_exception (msg game_id))
    (fun _ => rtc step w0) (fun _ => rtc step w0).
Proof. repeat step_with (rtc step w0) steps_side. Qed.

Lemma game_started_steps game provenance :
  hoare (rtc step w0) (game_started game provenance)
    (fun _ => rtc step w0) (fun _ => rtc step w0).
Proof.
  apply hoare_try_except with (M := fun _ => rtc step w0);
    [| intros _; apply handler_steps].
  unfold game_started_body. repeat step_with (rtc step w0) steps_side.
Qed.

Lemma update_live_state_steps game board :
  hoare (rtc step w0) (update_live_state game board)
    (fun _ => rtc step w0) (fun _ => rtc step w0).
Proof.
  apply hoare_try_except with (M := fun _ => rtc step w0);
    [| intros _; apply handler_steps].
  unfold update_live_state_body. repeat step_with (rtc step w0) steps_side.
Qed.

Lemma game_finished_steps game now :
  hoare (rtc step w0) (game_finished game now)
    (fun _ => rtc step w0) (fun _ => rtc step w0).
Proof.
  apply hoare_try_except with (M := fun _ => rtc step w0);
    [| intros _; apply handler_steps].
  unfold game_finished_body. repeat step_with (rtc step w0) steps_side.
Qed.

Lemma move_played_steps game move commentary source :
  hoare (fun st : World * Board => rtc step w0 st.1)
    (move_played game move commentary source)
    (fun _ st => rtc step w0 st.1) (fun _ st => rtc step w0 st.1).
Proof.
  apply hoare_try_except with (M := fun _ st => rtc step w0 st.1).
  - unfold move_played_body.
    apply (hoare_keep_fst_bind (rtc step w0)); [apply on_snd_fst | intros stack].
    apply (hoare_keep_fst_bind (rtc step w0)); [apply on_snd_fst | intros _].
    apply (hoare_keep_fst_bind (rtc step w0)); [apply on_snd_fst | intros move_san].
    apply (hoare_keep_fst_bind (rtc step w0)); [apply on_snd_fst | intros _].
    apply (hoare_keep_fst_bind (rtc step w0));
      [intros st; by rewrite read_commentary_state | intros ev].
    apply hoare_getattr; [intros state _ | intros ? H; exact H].
    apply hoare_getattr; [intros is_white _ | intros ? H; exact H].
    apply hoare_getattr; [intros game_id _ | intros ? H; exact H].
    apply hoare_bind with (M := fun _ st => rtc step w0 st.1); [| intros _].
    + apply hoare_on_fst. intros board.
      apply hoare_execute_with; intros w Hw; simpl in *; steps_side.
    + apply hoare_on_fst. intros board.
      apply hoare_commit; intros w Hw; simpl in *; steps_side.
  - intros _. apply hoare_getattr; [intros game_id _ | intros ? H; exact H].
    apply hoare_on_fst. intros board. apply hoare_modify. intros w Hw.
    simpl in *. steps_side.
Qed.
End Steps.

Section StepsOfCalls.
Context `{L : ChessLib}.

(** Every call of a lifecycle operation, whatever its arguments and its
    outcome, takes the world through steps. *)
Lemma world_after_steps (c : Call) (w : World) : rtc step w (world_after c w).
Proof.
  destruct c as [game provenance | game board move commentary source
                | game board | game now]; simpl; unfold after.
  - pose proof (game_started_steps w game provenance w (rtc_refl _ _)) as H.
    by destruct (game_started game provenance w) as [[e | a] w'].
  - pose proof (move_played_steps w game move commentary source (w, board)
                  (rtc_refl _ _)) as H.
    by destruct (move_played game move commentary source (w, board)) as [[e | a] w'].
  - pose proof (update_live_state_steps w game board w (rtc_refl _ _)) as H.
    by destruct (update_live_state game board w) as [[e | a] w'].
  - pose proof (game_finished_steps w game now w (rtc_refl _ _)) as H.
    by destruct (game_finished game now w) as [[e | a] w'].
Qed.

Lemma world_after_all_steps (cs : list Call) (w : World) :
  rtc step w (world_after_all cs w).
Proof.
  revert w. induction cs as [| c cs IH]; intros w; [apply rtc_refl |].
  simpl. eapply rtc_trans; [apply world_after_steps | apply IH].
Qed.

(** What every step keeps, every sequence of calls keeps. *)
Lemma world_after_all_keeps (I : World -> Prop) (cs : list Call) (w : World) :
  (forall w1 w2, step w1 w2 -> I w1 -> I w2) -> I w -> I (world_after_all cs w).
Proof.
  intros Hstep Hw. induction (world_after_all_steps cs w) as [w | w1 w2 w3 H12 _ IH];
    [exact Hw |]. apply IH. by apply (Hstep w1).
Qed.
End StepsOfCalls.

(** ** Invariants of the steps *)

Lemma games_of_insert_or_replace_other r g d :
  g ≠ Games.game_id r -> games_of g (insert_or_replace_games r d) = games_of g d.
Proof.
  intros Hg. unfold games_of. simpl.
  rewrite (filter_key_snoc_other Games.game_id) by congruence.
  by apply (filter_key_other Games.game_id).
Qed.

Lemma live_state_of_insert_or_replace_other r g d :
  g ≠ LiveState.game_id r ->
  live_state_of g (insert_or_replace_live_state r d) = live_state_of g d.
Proof.
  intros Hg. unfold live_state_of. simpl.
  rewrite (filter_key_snoc_other LiveState.game_id) by congruence.
  by apply (filter_key_other LiveState.game_id).
Qed.

Lemma games_of_update_length r t f m gid' gid d :
  length (games_of gid (update_games_where r t f m gid' d)) = length (games_of gid d).
Proof.
  unfold games_of. simpl. rewrite (filter_key_map Games.game_id).
  - apply length_map.
  - intros x. by destruct (bool_decide _).
Qed.

Lemma live_state_of_delete_other gid g d :
  g ≠ gid -> live_state_of g (delete_live_state_where gid d) = live_state_of g d.
Proof. intros Hg. unfold live_state_of. simpl. by apply (filter_key_other LiveState.game_id). Qed.

Lemma statement_unique_keys st d : statement st -> unique_keys d -> unique_keys (st d).
Proof.
  intros Hst Hd g. destruct (Hd g) as [Hg Hl].
  destruct Hst as [r | r | r Hr | f l m wt bt gid | r t f m gid | gid].
  - split; [| exact Hl]. destruct (decide (g = Games.game_id r)) as [-> | Hne].
    + by rewrite games_of_insert_or_replace.
    + by rewrite games_of_insert_or_replace_other.
  - split; [exact Hg |]. destruct (decide (g = LiveState.game_id r)) as [-> | Hne].
    + by rewrite live_state_of_insert_or_replace.
    + by rewrite live_state_of_insert_or_replace_other.
  - by split.
  - split; [exact Hg |]. by rewrite live_state_of_update_length.
  - split; [| exact Hl]. by rewrite games_of_update_length.
  - split; [exact Hg |]. destruct (decide (g = gid)) as [-> | Hne].
    + rewrite live_state_of_delete. simpl. lia.
    + by rewrite live_state_of_delete_other.
Qed.

Lemma step_unique_keys w1 w2 :
  step w1 w2 ->
  unique_keys (working w1) /\ unique_keys (committed w1) ->
  unique_keys (working w2) /\ unique_keys (committed w2).
Proof.
  intros Hstep [Hw Hc]. destruct Hstep as [w | st w Hst | w | r w]; simpl; try by split.
  split; [by apply statement_unique_keys | exact Hc].
Qed.

Lemma statement_rowids_in_order st d :
  statement st -> rowids_in_order d -> rowids_in_order (st d).
Proof.
  intros Hst [Hids Hseq].
  destruct Hst as [r | r | r Hr | f l m wt bt gid | r t f m gid | gid]; try by split.
  unfold rowids_in_order. simpl. rewrite length_app, map_app. simpl.
  rewrite Hr, Hids, Hseq. split; [| lia].
  replace (length (move_evals d) + 1)%nat with (S (length (move_evals d))) by lia.
  rewrite seqZ_S. do 2 f_equal. lia.
Qed.

Lemma step_rowids_in_order w1 w2 :
  step w1 w2 ->
  rowids_in_order (working w1) /\ rowids_in_order (committed w1) ->
  rowids_in_order (working w2) /\ rowids_in_order (committed w2).
Proof.
  intros Hstep [Hw Hc]. destruct Hstep as [w | st w Hst | w | r w]; simpl; try by split.
  split; [by apply statement_rowids_in_order | exact Hc].
Qed.

(** What grows with every statement grows in both views of the store,
    when the committed view starts behind the working one. *)
Lemma steps_monotone (R : relation DB) `{!PreOrder R} (w1 w2 : World) :
  (forall st d, statement st -> R d (st d)) ->
  rtc step w1 w2 ->
  R (committed w1) (working w1) ->
  R (working w1) (working w2) /\ R (committed w1) (committed w2)
  /\ R (committed w2) (working w2).
Proof.
  intros Hst Hsteps H1. revert w2 Hsteps. apply rtc_ind_r.
  - by repeat split.
  - intros w2 w3 _ H12 (Hw & Hc & Hcw).
    destruct H12 as [w | st w Hstat | w | r w]; simpl; try by repeat split.
    + repeat split; [| exact Hc |].
      * etrans; [exact Hw | by apply Hst].
      * etrans; [exact Hcw | by apply Hst].
    + repeat split; [exact Hw | | reflexivity]. by etrans.
Qed.

Lemma statement_move_evals_grow st d : statement st -> move_evals_grow d (st d).
Proof.
  unfold move_evals_grow.
  intros [r | r | r Hr | f l m wt bt gid | r t f m gid | gid]; simpl; try reflexivity.
  by apply prefix_app_r.
Qed.

Lemma statement_games_kept st d : statement st -> games_kept d (st d).
Proof.
  unfold games_kept, has_game.
  intros [r | r | r Hr | f l m wt bt gid | r t f m gid | gid] g Hg; simpl; try exact Hg.
  - apply Exists_exists in Hg as (x & Hx & Hkey). apply Exists_exists.
    destruct (decide (Games.game_id x = Games.game_id r)) as [Heq | Hne].
    + exists r. split; [| congruence].
      apply elem_of_app. right. by apply list_elem_of_singleton.
    + exists x. split; [| exact Hkey].
      apply elem_of_app. left. apply list_elem_of_filter. by split.
  - apply Exists_fmap. eapply Exists_impl; [exact Hg |].
    intros x Hx. simpl. by destruct (bool_decide _).
Qed.

Lemma move_evals_grow_preorder : PreOrder move_evals_grow.
Proof.
  split.
  - intros d. unfold move_evals_grow. reflexivity.
  - intros d1 d2 d3 H12 H23. unfold move_evals_grow in *. by etrans.
Qed.

Lemma games_kept_preorder : PreOrder games_kept.
Proof.
  split.
  - by intros d g Hg.
  - intros d1 d2 d3 H12 H23 g Hg. by apply H23, H12.
Qed.

Section ReachableStores.
Context `{L : ChessLib}.

(** X1: The primary keys hold: from the store [__init__] builds on a new
    file, after any calls of the lifecycle operations, with any
    arguments and storage-engine errors, no game ID has two rows in
    [games] or two rows in [live_state], in the working copy and in what
    is committed. *)
Theorem keys_stay_unique (db_path : string) (fs : list bool) (cs : list Call) :
  unique_keys (working (world_after_all cs (initial_world db_path fs)))
  /\ unique_keys (committed (world_after_all cs (initial_world db_path fs))).
Proof.
  apply (world_after_all_keeps
           (fun w => unique_keys (working w) /\ unique_keys (committed w))).
  - intros w1 w2. apply step_unique_keys.
  - split; intros g; simpl; split; apply Nat.le_0_l.
Qed.

(** X2: [move_evals] is append-only: whatever calls follow, with any
    arguments and storage-engine errors, the rows that are in
    [move_evals] stay, unchanged and in place, at the head of the table,
    in the working copy and in what is committed. *)
Theorem move_evals_is_append_only (db_path : string) (fs : list bool)
    (before later : list Call) :
  move_evals (working (world_after_all before (initial_world db_path fs)))
    `prefix_of`
    move_evals (working (world_after_all later
                           (world_after_all before (initial_world db_path fs))))
  /\ move_evals (committed (world_after_all before (initial_world db_path fs)))
       `prefix_of`
       move_evals (committed (world_after_all later
                                (world_after_all before (initial_world db_path fs)))).
Proof.
  pose proof move_evals_grow_preorder as Hpre.
  destruct (steps_monotone move_evals_grow (initial_world db_path fs)
              (world_after_all before (initial_world db_path fs))
              statement_move_evals_grow (world_after_all_steps _ _))
    as (_ & _ & Hbehind); [reflexivity |].
  destruct (steps_monotone move_evals_grow
              (world_after_all before (initial_world db_path fs))
              (world_after_all later (world_after_all before (initial_world db_path fs)))
              statement_move_evals_grow (world_after_all_steps _ _) Hbehind)
    as (Hw & Hc & _).
  by split.
Qed.

(** X3: The AUTOINCREMENT keys: from the store [__init__] builds on a new
    file, after any calls, the [id]s of the rows of [move_evals] are
    1, 2, 3, ... in the order of the rows, so no two rows share an
    [id]. *)
Theorem move_evals_rowids_count_up (db_path : string) (fs : list bool) (cs : list Call) :
  rowids_in_order (working (world_after_all cs (initial_world db_path fs)))
  /\ rowids_in_order (committed (world_after_all cs (initial_world db_path fs))).
Proof.
  apply (world_after_all_keeps
           (fun w => rowids_in_order (working w) /\ rowids_in_order (committed w))).
  - intros w1 w2. apply step_rowids_in_order.
  - by split.
Qed.

End ReachableStores.

(** ** What a call publishes and what it logs *)

Ltac unpublished_side :=
  idtac;
  lazymatch goal with
  | H : unpublished _ _ ?w |- _ => exact H
  end.

Section BodyOutcomes.
Context `{L : ChessLib}.
Variables (c0 : DB) (l0 : list LogRecord).

Lemma game_started_body_outcome game provenance :
  hoare (unpublished c0 l0) (game_started_body game provenance)
    (fun _ w => committed w = working w
                /\ log w = l0 ++ success_records (GameStarted game provenance)
                                   (default "" (Game.id game)))
    (fun _ => unpublished c0 l0).
Proof.
  unfold game_started_body. repeat step_with (unpublished c0 l0) unpublished_side.
  apply hoare_bind with (M := fun _ w => committed w = working w /\ log w = l0).
  - apply hoare_commit; intros w Hw; [| exact Hw].
    destruct Hw as [_ Hl]. by split.
  - intros _. eapply hoare_getattr_some; [eassumption |].
    apply hoare_modify. intros w [Hc Hl]. simpl.
    match goal with H : Game.id game = Some _ |- _ => rewrite H end.
    simpl. by rewrite Hl.
Qed.

Lemma update_live_state_body_outcome game board :
  hoare (unpublished c0 l0) (update_live_state_body game board)
    (fun _ w => committed w = working w /\ log w = l0)
    (fun _ => unpublished c0 l0).
Proof.
  unfold update_live_state_body. repeat step_with (unpublished c0 l0) unpublished_side.
  apply hoare_commit; intros w Hw; [| exact Hw].
  destruct Hw as [_ Hl]. by split.
Qed.

Lemma game_finished_body_outcome game now :
  hoare (unpublished c0 l0) (game_finished_body game now)
    (fun _ w => committed w = working w
                /\ log w = l0 ++ success_records (GameFinished game now)
                                   (default "" (Game.id game)))
    (fun _ => unpublished c0 l0).
Proof.
  unfold game_finished_body. repeat step_with (unpublished c0 l0) unpublished_side.
  apply hoare_bind with (M := fun _ w => committed w = working w /\ log w = l0).
  - apply hoare_commit; intros w Hw; [| exact Hw].
    destruct Hw as [_ Hl]. by split.
  - intros _. eapply hoare_getattr_some; [eassumption |].
    apply hoare_modify. intros w [Hc Hl]. simpl.
    repeat match goal with
      | H : Game.id game = Some _ |- _ => rewrite H in *; clear H
      | H : Game.result game = Some _ |- _ => rewrite H in *; clear H
      | H : Game.state game = Some _ |- _ => rewrite H in *; clear H
      | H : Some _ = Some _ |- _ => injection H as <-
      end.
    simpl. by rewrite Hl.
Qed.

Lemma move_played_body_outcome game move commentary source :
  hoare (fun st : World * Board => unpublished c0 l0 st.1)
    (move_played_body game move commentary source)
    (fun _ st => committed st.1 = working st.1 /\ log st.1 = l0)
    (fun _ st => unpublished c0 l0 st.1).
Proof.
  unfold move_played_body.
  apply (hoare_keep_fst_bind (unpublished c0 l0)); [apply on_snd_fst | intros stack].
  apply (hoare_keep_fst_bind (unpublished c0 l0)); [apply on_snd_fst | intros _].
  apply (hoare_keep_fst_bind (unpublished c0 l0)); [apply on_snd_fst | intros move_san].
  apply (hoare_keep_fst_bind (unpublished c0 l0)); [apply on_snd_fst | intros _].
  apply (hoare_keep_fst_bind (unpublished c0 l0));
    [intros st; by rewrite read_commentary_state | intros ev].
  apply hoare_getattr; [intros state _ | intros ? H; exact H].
  apply hoare_getattr; [intros is_white _ | intros ? H; exact H].
  apply hoare_getattr; [intros game_id _ | intros ? H; exact H].
  apply hoare_bind with (M := fun _ st => unpublished c0 l0 st.1); [| intros _].
  - apply hoare_on_fst. intros board.
    apply hoare_execute_with; intros w Hw; exact Hw.
  - apply hoare_on_fst. intros board.
    apply hoare_commit; intros w Hw; [| exact Hw].
    destruct Hw as [_ Hl]. by split.
Qed.
End BodyOutcomes.

Section CallOutcomes.
Context `{L : ChessLib}.


(** A call publishes when its body completes, and then all that the
    connection has written; a call whose body raises publishes nothing. *)
Lemma world_after_committed (c : Call) (w : World) :
  match body_result c w with
  | inr _ => committed (world_after c w) = working (world_after c w)
  | inl _ => committed (world_after c w) = committed w
  end.
Proof.
  destruct c as [game provenance | game board move commentary source
                | game board | game now]; simpl; unfold after.
  - pose proof (game_started_body_outcome (committed w) (log w) game provenance w
                  (conj eq_refl eq_refl)) as H.
    unfold game_started, try_except.
    destruct (game_started_body game provenance w) as [[e | []] w']; simpl.
    + destruct H as [Hc _]. by destruct (Game.id game).
    + apply H.
  - pose proof (move_played_body_outcome (committed w) (log w) game move commentary
                  source (w, board) (conj eq_refl eq_refl)) as H.
    unfold move_played, try_except.
    destruct (move_played_body game move commentary source (w, board))
      as [[e | []] [w' b']]; simpl in *.
    + destruct H as [Hc _]. by destruct (Game.id game).
    + apply H.
  - pose proof (update_live_state_body_outcome (committed w) (log w) game board w
                  (conj eq_refl eq_refl)) as H.
    unfold update_live_state, try_except.
    destruct (update_live_state_body game board w) as [[e | []] w']; simpl.
    + destruct H as [Hc _]. by destruct (Game.id game).
    + apply H.
  - pose proof (game_finished_body_outcome (committed w) (log w) game now w
                  (conj eq_refl eq_refl)) as H.
    unfold game_finished, try_except.
    destruct (game_finished_body game now w) as [[e | []] w']; simpl.
    + destruct H as [Hc _]. by destruct (Game.id game).
    + apply H.
Qed.

Lemma world_after_log (c : Call) (w : World) (gid : string) :
  Game.id (game_of c) = Some gid ->
  log (world_after c w)
  = log w ++ match body_result c w with
             | inr _ => success_records c gid
             | inl _ => [failure_record c gid]
             end.
Proof.
  intros Hid.
  destruct c as [game provenance | game board move commentary source
                | game board | game now]; simpl in *; unfold after.
  - pose proof (game_started_body_outcome (committed w) (log w) game provenance w
                  (conj eq_refl eq_refl)) as H.
    unfold game_started, try_except.
    destruct (game_started_body game provenance w) as [[e | []] w']; simpl.
    + destruct H as [_ Hl]. rewrite Hid. simpl. by rewrite Hl.
    + destruct H as [_ Hl]. by rewrite Hid in Hl.
  - pose proof (move_played_body_outcome (committed w) (log w) game move commentary
                  source (w, board) (conj eq_refl eq_refl)) as H.
    unfold move_played, try_except.
    destruct (move_played_body game move commentary source (w, board))
      as [[e | []] [w' b']]; simpl in *.
    + destruct H as [_ Hl]. rewrite Hid. simpl. by rewrite Hl.
    + destruct H as [_ Hl]. by rewrite Hl, app_nil_r.
  - pose proof (update_live_state_body_outcome (committed w) (log w) game board w
                  (conj eq_refl eq_refl)) as H.
    unfold update_live_state, try_except.
    destruct (update_live_state_body game board w) as [[e | []] w']; simpl.
    + destruct H as [_ Hl]. rewrite Hid. simpl. by rewrite Hl.
    + destruct H as [_ Hl]. by rewrite Hl, app_nil_r.
  - pose proof (game_finished_body_outcome (committed w) (log w) game now w
                  (conj eq_refl eq_refl)) as H.
    unfold game_finished, try_except.
    destruct (game_finished_body game now w) as [[e | []] w']; simpl.
    + destruct H as [_ Hl]. rewrite Hid. simpl. by rewrite Hl.
    + destruct H as [_ Hl]. by rewrite Hid in Hl.
Qed.
End CallOutcomes.

Section CallExtras.
Context `{L : ChessLib}.

Lemma world_after_apart (c : Call) (w : World) (gid : string) :
  Game.id (game_of c) = Some gid ->
  others_unchanged gid (working w) (working (world_after c w)).
Proof.
  intros Hid.
  assert (H0 : apart gid (working w) w) by (by intros g Hg).
  destruct c as [game provenance | game board move commentary source
                | game board | game now]; simpl in *.
  - exact (proj2 (hoare_total _ _ _ w (game_started_apart game gid Hid (working w) provenance) H0)).
  - exact (proj2 (hoare_total _ _ _ (w, board)
                    (move_played_apart game gid Hid (working w) move commentary source) H0)).
  - exact (proj2 (hoare_total _ _ _ w (update_live_state_apart game gid Hid (working w) board) H0)).
  - exact (proj2 (hoare_total _ _ _ w (game_finished_apart game gid Hid (working w) now) H0)).
Qed.


(** X6: What a call logs, for a descriptor with its [id]: when the body of
    its [try] raises, one ERROR record that names the operation and the
    game ID; when it completes, one INFO record for [game_started] and
    [game_finished], and nothing for [move_played] and
    [update_live_state].  It logs nothing else. *)
Theorem call_logs_its_outcome (c : Call) (w : World) (gid : string) :
  Game.id (game_of c) = Some gid ->
  log (world_after c w)
  = log w ++ match body_result c w with
             | inr _ => success_records c gid
             | inl _ => [failure_record c gid]
             end.
Proof. apply world_after_log. Qed.

(** X7: What the spectator sees of the other games: when nothing of the
    connection is waiting to be committed, a call for the game [gid],
    whatever its arguments and its outcome, leaves the committed rows of
    every other game as they are. *)
Theorem call_keeps_committed_rows_of_other_games (c : Call) (w : World) (gid : string) :
  committed w = working w ->
  Game.id (game_of c) = Some gid ->
  others_unchanged gid (committed w) (committed (world_after c w)).
Proof.
  intros Hcw Hid. pose proof (world_after_committed c w) as Hc.
  destruct (body_result c w).
  - rewrite Hc. by intros g Hg.
  - rewrite Hc, Hcw. by apply world_after_apart.
Qed.
End CallExtras.

Lemma call_logs_its_outcome_witness :
  Game.id (game_of (GameFinished
                      (MockGame.descriptor
                         (mock_game "test_game_1" 180000 180000 (Some "white") "mate"))
                      "2025-01-15T12:30:00+00:00"))
  = Some "test_game_1"
  /\ log (world_after
            (GameFinished
               (MockGame.descriptor
                  (mock_game "test_game_1" 180000 180000 (Some "white") "mate"))
               "2025-01-15T12:30:00+00:00") world_started_failing_third)
     = log world_started_failing_third ++ [ERROR "Failed to log game end for test_game_1"].
Proof.
  split; [reflexivity |].
  apply (call_logs_its_outcome (L := opening_lines)
           (GameFinished
              (MockGame.descriptor
                 (mock_game "test_game_1" 180000 180000 (Some "white") "mate"))
              "2025-01-15T12:30:00+00:00") world_started_failing_third "test_game_1").
  reflexivity.
Defined.

Lemma call_keeps_committed_rows_of_other_games_witness :
  committed world_started = working world_started
  /\ Game.id (game_of (MovePlayed MockGame_default (board_after ["e2e4"]) "e2e4"
                         (Some (make_commentary (Cp 30) 12)) "book"))
     = Some "test_game_1"
  /\ others_unchanged "test_game_1" (committed world_started)
       (committed (world_after
                     (MovePlayed MockGame_default (board_after ["e2e4"]) "e2e4"
                        (Some (make_commentary (Cp 30) 12)) "book") world_started)).
Proof.
  split; [vm_compute; reflexivity |]. split; [reflexivity |].
  apply (call_keeps_committed_rows_of_other_games (L := opening_lines)
           (MovePlayed MockGame_default (board_after ["e2e4"]) "e2e4"
              (Some (make_commentary (Cp 30) 12)) "book") world_started "test_game_1").
  - vm_compute. reflexivity.
  - reflexivity.
Defined.

(** ** [move_played] at its edges *)

Lemma truthy_of_time (cm : Commentary.t) :
  is_Some (Commentary.time cm) -> Commentary.truthy cm = true.
Proof.
  intros H. unfold Commentary.truthy.
  rewrite (bool_decide_eq_true_2 (is_Some (Commentary.time cm))) by exact H.
  by rewrite !orb_true_r.
Qed.

Lemma read_commentary_fields {S} (commentary : option Commentary.t) (s : S) ev :
  (read_commentary commentary s).1 = inr ev ->
  depth ev = commentary ≫= Commentary.depth
  /\ nodes ev = commentary ≫= Commentary.nodes
  /\ nps ev = commentary ≫= Commentary.nps
  /\ pv_str ev = match commentary ≫= Commentary.ponderpv with
                 | Some pv_san => if bool_decide (pv_san = "") then None else Some pv_san
                 | None => None
                 end.
Proof.
  unfold read_commentary. destruct commentary as [cm |]; simpl.
  - destruct (Commentary.truthy cm) eqn:Ht.
    + unfold bind. destruct (Commentary.time cm) as [tv |]; simpl.
      * unfold lift_result. destruct (time_ms_of tv); simpl; [done |].
        intros [= <-]. by repeat split.
      * intros [= <-]. by repeat split.
    + intros [= <-]. simpl. unfold Commentary.truthy in Ht.
      destruct (Commentary.depth cm), (Commentary.nodes cm), (Commentary.nps cm),
        (Commentary.ponderpv cm); simpl;
        rewrite ?(bool_decide_eq_true_2 (is_Some (Some _))) in Ht by (by eexists);
        rewrite ?orb_true_r in Ht; simpl in Ht; try discriminate; by repeat split.
  - intros [= <-]. by repeat split.
Qed.

Lemma read_commentary_nothing {S} (commentary : option Commentary.t) (s : S) :
  (forall cm, commentary = Some cm -> Commentary.truthy cm = false) ->
  (read_commentary commentary s).1
  = inr {| eval_cp := None; eval_mate := None; depth := None; pv_str := None;
           nodes := None; nps := None; time_ms := None |}.
Proof.
  intros H. unfold read_commentary. destruct commentary as [cm |]; [| reflexivity].
  by rewrite (H cm eq_refl).
Qed.

Section MovePlayedEdges.
Context `{L : ChessLib}.

(** X8: [move_played] on a board without a move: the [pop] raises, the
    error is logged under the game ID, and the call returns with the
    board, the rows and what is committed as they were. *)
Theorem move_played_on_empty_board game move commentary source w board gid :
  Game.id game = Some gid -> move_stack board = [] ->
  move_played game move commentary source (w, board)
  = (inr tt, (add_log (ERROR ("Failed to log move for " +:+ gid)) w, board)).
Proof.
  intros Hid Hstack.
  unfold move_played, try_except, move_played_body, bind, on_snd, on_fst, gets, pop.
  simpl. rewrite Hstack. simpl. by rewrite Hid.
Qed.

(** X9: [move_played] with a move that has no notation in the position
    before the last move of the board ([board.san] raises): the call
    returns with the error logged and no row written, and the board is
    left without its last move, which was retracted and is not pushed
    again. *)
Theorem move_played_without_notation_shortens_board game move commentary source w board
    front last gid :
  Game.id game = Some gid -> move_stack board = front ++ [last] ->
  position_san (position {| root := root board; move_stack := front |}) move = None ->
  move_played game move commentary source (w, board)
  = (inr tt, (add_log (ERROR ("Failed to log move for " +:+ gid)) w,
              {| root := root board; move_stack := front |})).
Proof.
  intros Hid Hstack Hsan.
  unfold move_played, try_except, move_played_body, bind, on_snd, on_fst, gets, pop, san.
  simpl. rewrite Hstack, unsnoc_snoc. simpl. rewrite Hsan. simpl. by rewrite Hid.
Qed.

(** X10: [move_played] with a search time that has no integer value (a NaN
    or an infinity): the conversion raises after the board is restored,
    so the call returns with the error logged, no row written, and the
    board with the move passed in the place of its last move. *)
Theorem move_played_with_unusable_time game move cm source w board
    front last move_san time_val e gid :
  Game.id game = Some gid -> move_stack board = front ++ [last] ->
  position_san (position {| root := root board; move_stack := front |}) move
  = Some move_san ->
  Commentary.time cm = Some time_val -> time_ms_of time_val = inl e ->
  move_played game move (Some cm) source (w, board)
  = (inr tt, (add_log (ERROR ("Failed to log move for " +:+ gid)) w,
              {| root := root board; move_stack := front ++ [move] |})).
Proof.
  intros Hid Hstack Hsan Htime Hconv.
  unfold move_played, try_except, move_played_body, bind, on_snd, on_fst, gets, pop, san,
    push, modify.
  simpl. rewrite Hstack, unsnoc_snoc. simpl. rewrite Hsan. simpl.
  unfold read_commentary. rewrite truthy_of_time by (by rewrite Htime).
  rewrite Htime. unfold bind, lift_result. rewrite Hconv. simpl. by rewrite Hid.
Qed.

(** X11: The row of a call of [move_played] whose body completes, beyond
    its ply, notations, evaluation and search time: it has the game ID of
    the descriptor, the source passed, the clock of the side the bot
    plays ([wtime] when the descriptor says it is White, [btime]
    otherwise, NULL when the state has no such key), and depth, nodes
    and nps as the bundle has them (NULL without a bundle or key); the
    principal variation is that of the bundle, NULL when it is absent or
    the empty string. *)
Theorem move_played_row_columns game move commentary source w board w' board' :
  move_played_body game move commentary source (w, board) = (inr tt, (w', board')) ->
  exists r state is_white,
    move_evals (working w') = move_evals (working w) ++ [r]
    /\ Game.id game = Some (MoveEvals.game_id r)
    /\ Game.state game = Some state
    /\ Game.is_white game = Some is_white
    /\ MoveEvals.clock_ms r = (if is_white : bool then State.wtime state
                               else State.btime state)
    /\ MoveEvals.source r = Some source
    /\ MoveEvals.depth r = commentary ≫= Commentary.depth
    /\ MoveEvals.nodes r = commentary ≫= Commentary.nodes
    /\ MoveEvals.nps r = commentary ≫= Commentary.nps
    /\ MoveEvals.pv r = match commentary ≫= Commentary.ponderpv with
                        | Some pv_san =>
                            if bool_decide (pv_san = "") then None else Some pv_san
                        | None => None
                        end.
Proof.
  intros H. apply move_played_body_inv in H
    as (front & last & move_san & ev & state & is_white & game_id
        & _ & _ & Hev & Hstate & Hwhite & Hid & _ & Hw & _).
  apply read_commentary_fields in Hev as (Hd & Hn & Hp & Hpv).
  eexists _, state, is_white. rewrite Hw. simpl.
  split; [reflexivity |]. simpl. by repeat split.
Qed.

(** X12: A call of [move_played] without an evaluation bundle, or with an
    empty one, whose body completes: the row has NULL in the seven
    evaluation columns (centipawns, mate distance, depth, principal
    variation, nodes, nps and search time). *)
Theorem move_played_without_evaluation game move commentary source w board w' board' :
  (forall cm, commentary = Some cm -> Commentary.truthy cm = false) ->
  move_played_body game move commentary source (w, board) = (inr tt, (w', board')) ->
  exists r,
    move_evals (working w') = move_evals (working w) ++ [r]
    /\ MoveEvals.eval_cp r = None /\ MoveEvals.eval_mate r = None
    /\ MoveEvals.depth r = None /\ MoveEvals.pv r = None
    /\ MoveEvals.nodes r = None /\ MoveEvals.nps r = None
    /\ MoveEvals.time_ms r = None.
Proof.
  intros Hnone H. apply move_played_body_inv in H
    as (front & last & move_san & ev & state & is_white & game_id
        & _ & _ & Hev & _ & _ & _ & _ & Hw & _).
  rewrite (read_commentary_nothing commentary w Hnone) in Hev. injection Hev as <-.
  eexists. rewrite Hw. simpl. split; [reflexivity |]. by repeat split.
Qed.
End MovePlayedEdges.

Lemma move_played_on_empty_board_witness :
  Game.id MockGame_default = Some "test_game_1"
  /\ move_stack (board_after []) = []
  /\ move_played MockGame_default "e2e4" None "search" (world_started, board_after [])
     = (inr tt, (add_log (ERROR "Failed to log move for test_game_1") world_started,
                 board_after [])).
Proof.
  split; [reflexivity |]. split; [reflexivity |].
  apply (move_played_on_empty_board (L := opening_lines) MockGame_default "e2e4" None
           "search" world_started (board_after []) "test_game_1"); reflexivity.
Defined.

(** On the board after 1. e4 e5 with the move a3a4: with e7e5
    retracted no piece stands on a3, [board.san] raises, and the board
    is left after 1. e4. *)
Lemma move_played_without_notation_shortens_board_witness :
  Game.id MockGame_default = Some "test_game_1"
  /\ move_stack (board_after ["e2e4"; "e7e5"]) = ["e2e4"] ++ ["e7e5"]
  /\ position_san (position (board_after ["e2e4"])) "a3a4" = None
  /\ (move_played MockGame_default "a3a4" None "search"
        (world_started, board_after ["e2e4"; "e7e5"])).2.2
     = board_after ["e2e4"].
Proof.
  split; [reflexivity |]. split; [reflexivity |]. split; [reflexivity |].
  rewrite (move_played_without_notation_shortens_board (L := opening_lines)
             MockGame_default "a3a4" None "search" world_started
             (board_after ["e2e4"; "e7e5"]) ["e2e4"] "e7e5" "test_game_1");
    reflexivity.
Defined.

Lemma move_played_with_unusable_time_witness :
  time_ms_of (TimeFloat nan) = inl ValueError
  /\ time_ms_of (TimeFloat infinity) = inl OverflowError
  /\ move_played MockGame_default "e2e4"
       (Some {| Commentary.score := None; Commentary.depth := None;
                Commentary.nodes := None; Commentary.nps := None;
                Commentary.time := Some (TimeFloat nan);
                Commentary.ponderpv := None |})
       "search" (world_started, board_after ["e2e4"])
     = (inr tt, (add_log (ERROR "Failed to log move for test_game_1") world_started,
                 board_after ["e2e4"])).
Proof.
  split; [vm_compute; reflexivity |]. split; [vm_compute; reflexivity |].
  apply (move_played_with_unusable_time (L := opening_lines) MockGame_default "e2e4"
           {| Commentary.score := None; Commentary.depth := None;
              Commentary.nodes := None; Commentary.nps := None;
              Commentary.time := Some (TimeFloat nan);
              Commentary.ponderpv := None |}
           "search" world_started (board_after ["e2e4"]) [] "e2e4" "e4" (TimeFloat nan)
           ValueError "test_game_1"); reflexivity.
Defined.

Lemma move_played_row_columns_witness :
  exists r,
    move_evals (working world_black_e5) = [r]
    /\ MoveEvals.game_id r = "test_game_1"
    /\ MoveEvals.clock_ms r = Some 170000
    /\ MoveEvals.source r = Some "search"
    /\ MoveEvals.depth r = Some 12
    /\ MoveEvals.pv r = Some "e5 Nf3".
Proof.
  destruct (move_played_row_columns (L := opening_lines) MockGame_black "e7e5"
              (Some (make_commentary (Cp 35) 12)) "search"
              (after (game_started MockGame_black "matchmaking") fresh_world)
              (board_after ["e2e4"; "e7e5"]) world_black_e5
              (board_after ["e2e4"; "e7e5"]))
    as (r & state & is_white & Hrows & Hid & Hstate & Hwhite & Hclock & Hsource
        & Hdepth & _ & _ & Hpv).
  { vm_compute. reflexivity. }
  exists r. injection Hid as Hid. injection Hstate as <-. injection Hwhite as <-.
  repeat split; try assumption; try (symmetry; assumption).
Defined.

Lemma move_played_without_evaluation_witness :
  exists r,
    move_evals (working (after (move_played (L := opening_lines) MockGame_default "e2e4" None "book")
                           (world_started, board_after ["e2e4"])).1) = [r]
    /\ MoveEvals.eval_cp r = None /\ MoveEvals.eval_mate r = None
    /\ MoveEvals.depth r = None /\ MoveEvals.pv r = None
    /\ MoveEvals.nodes r = None /\ MoveEvals.nps r = None
    /\ MoveEvals.time_ms r = None.
Proof.
  apply (move_played_without_evaluation (L := opening_lines) MockGame_default "e2e4" None
           "book" world_started (board_after ["e2e4"])
           (after (move_played (L := opening_lines) MockGame_default "e2e4" None "book")
              (world_started, board_after ["e2e4"])).1
           (board_after ["e2e4"])).
  - intros cm H. discriminate H.
  - vm_compute. reflexivity.
Defined.

(** ** Calls that find no row, and calls in sequence *)

Lemma map_unless_key {A} (key : A -> string) (f : A -> A) (gid : string) (l : list A) :
  filter (fun x => key x = gid) l = [] ->
  map (fun x => if bool_decide (key x = gid) then f x else x) l = l.
Proof.
  induction l as [| x l IH]; [done |]. rewrite filter_cons. simpl.
  destruct (decide (key x = gid)) as [E | E]; [done |].
  intros H. rewrite bool_decide_eq_false_2 by exact E. f_equal. by apply IH.
Qed.

Lemma update_live_state_where_missing f l m wt bt gid d :
  live_state_of gid d = [] -> update_live_state_where f l m wt bt gid d = d.
Proof.
  intros H. unfold update_live_state_where.
  rewrite (map_unless_key LiveState.game_id) by exact H. by destruct d.
Qed.

Lemma select_moves_uci_where_live gid d :
  select_moves_uci_where gid d = LiveState.moves_uci <$> head (live_state_of gid d).
Proof. reflexivity. Qed.

(** What every statement keeps, the working copy keeps along steps. *)
Lemma steps_working_monotone (R : relation DB) `{!PreOrder R} w1 w2 :
  (forall st d, statement st -> R d (st d)) ->
  rtc step w1 w2 -> R (working w1) (working w2).
Proof.
  intros Hst Hsteps. revert w2 Hsteps. apply rtc_ind_r; [reflexivity |].
  intros w2 w3 _ H23 IH. etrans; [exact IH |].
  destruct H23 as [w2 | st w2 Hs | w2 | r w2]; simpl; try reflexivity.
  by apply Hst.
Qed.

Section Sequences.
Context `{L : ChessLib}.

(** X13: [update_live_state] for a game that has no live row (it was never
    started, or it is finished), by a descriptor with its state whose
    clocks are absent or integers of 64 bits, without storage-engine
    error: the [UPDATE] matches nothing, so the call completes with the
    rows as they were, commits, and logs nothing; no row is created and
    no error is reported. *)
Theorem update_live_state_without_live_row game board state gid w :
  Game.id game = Some gid -> Game.state game = Some state -> clocks_fit state ->
  calm 2 w ->
  live_state_of gid (working w) = [] ->
  returns (update_live_state game board) w
  /\ working (after (update_live_state game board) w) = working w
  /\ committed (after (update_live_state game board) w) = working w
  /\ log (after (update_live_state game board) w) = log w.
Proof.
  intros Hid Hstate Hfit (F1 & F2 & _) Hnone. unfold clocks_fit in Hfit.
  unfold returns, after, update_live_state, try_except, update_live_state_body. cbv zeta.
  repeat run_step.
  erewrite commit_calm by (simpl; assumption). simpl.
  rewrite update_live_state_where_missing by exact Hnone. by repeat split.
Qed.

(** X14: [game_finished] a second time for the same game: the first call
    deleted the live row, so the second one finds no move list and sets
    the [moves_uci] of the record of the game to NULL, whatever the
    first call stored there. *)
Theorem game_finished_again_erases_moves (first second : Game.t) (now now' gid : string)
    (result result' : string) (state state' : State.t) (w : World) :
  Game.id first = Some gid -> Game.state first = Some state ->
  Game.result first = Some result -> calm 4 w ->
  Game.id second = Some gid -> Game.state second = Some state' ->
  Game.result second = Some result' ->
  calm 4 (after (game_finished first now) w) ->
  returns (game_finished second now') (after (game_finished first now) w)
  /\ Forall (fun g => Games.moves_uci g = None)
       (games_of gid
          (working (after (game_finished second now')
                      (after (game_finished first now) w)))).
Proof.
  intros Hid Hstate Hresult Hcalm Hid' Hstate' Hresult' Hcalm'.
  destruct (game_finished_ok first now state result gid w Hstate Hresult Hid Hcalm)
    as (w1 & Hrun1 & Hw1 & _).
  unfold after in *. rewrite Hrun1 in *. simpl in *.
  destruct (game_finished_ok second now' state' result' gid w1 Hstate' Hresult' Hid' Hcalm')
    as (w2 & Hrun2 & Hw2 & _).
  unfold returns. rewrite Hrun2. simpl. split; [reflexivity |].
  rewrite Hw2. rewrite select_moves_uci_where_live.
  assert (Hnone : live_state_of gid (working w1) = [])
    by (rewrite Hw1; apply live_state_of_delete).
  rewrite Hnone. simpl.
  change (games_of gid (delete_live_state_where gid ?d)) with (games_of gid d).
  rewrite games_of_update. apply Forall_forall. intros g Hg.
  apply list_elem_of_fmap in Hg as (g0 & -> & _). reflexivity.
Qed.

(** X15: A game from start to end: after [game_started], an
    [update_live_state] with a board and [game_finished], none of which
    meets a failure (the descriptors have what is read, the rating and
    the clocks that are bound are absent or integers of 64 bits, no
    storage-engine error), the game has one record, the one
    [game_started] wrote with the status finished, the result, the
    termination and the finish time, and with the notations of the moves
    of that board, joined by single spaces in the order of play, as its
    move list; it has no live row left, and all of it is committed. *)
Theorem started_updated_finished (started moved finished : Game.t)
    (provenance now gid result : string) (ci : timedelta) (ms : Z) (board : Board)
    (state state' : State.t) (w : World) :
  well_formed started -> Game.id started = Some gid ->
  Game.clock_initial started = Some ci -> clock_initial_ms ci = inr ms ->
  sqlite_integer ms = true -> calm 3 w ->
  Game.id moved = Some gid -> Game.state moved = Some state -> clocks_fit state ->
  calm 2 (after (game_started started provenance) w) ->
  Game.id finished = Some gid -> Game.state finished = Some state' ->
  Game.result finished = Some result ->
  calm 4 (after (update_live_state moved board)
            (after (game_started started provenance) w)) ->
  games_of gid
    (working (after (game_finished finished now)
                (after (update_live_state moved board)
                   (after (game_started started provenance) w))))
  = [set_finished (Some result) (State.status state') (Some now)
       (Some (space_joined (map uci (move_stack board))))
       (started_games_row started provenance gid)]
  /\ live_state_of gid
       (working (after (game_finished finished now)
                   (after (update_live_state moved board)
                      (after (game_started started provenance) w))))
     = []
  /\ committed (after (game_finished finished now)
                  (after (update_live_state moved board)
                     (after (game_started started provenance) w)))
     = working (after (game_finished finished now)
                  (after (update_live_state moved board)
                     (after (game_started started provenance) w))).
Proof.
  intros Hwf Hid Hci Hms Hmsfits Hcalm Hid2 Hstate2 Hfit2 Hcalm2 Hid3 Hstate3 Hresult3
    Hcalm3.
  destruct (game_started_ok started provenance w gid ci ms Hwf Hid Hci Hms Hmsfits Hcalm)
    as (w1 & Hrun1 & Hw1 & _).
  unfold after in *. rewrite Hrun1 in *. simpl in *.
  destruct (update_live_state_ok moved board state gid w1 Hstate2 Hid2 Hfit2 Hcalm2)
    as (w2 & Hrun2 & Hw2 & _).
  rewrite Hrun2 in *. simpl in *.
  destruct (game_finished_ok finished now state' result gid w2 Hstate3 Hresult3 Hid3 Hcalm3)
    as (w3 & Hrun3 & Hw3 & Hc3).
  rewrite Hrun3. simpl.
  assert (Hlive : live_state_of gid (working w2)
                  = [set_live_state (Some (fen board)) (last_uci board)
                       (Some (joined_uci board)) (State.wtime state) (State.btime state)
                       (started_live_state_row gid ms)]).
  { rewrite Hw2, live_state_of_update, Hw1.
    by rewrite (live_state_of_insert_or_replace (started_live_state_row gid ms)). }
  assert (Hgames : games_of gid (working w2) = [started_games_row started provenance gid]).
  { rewrite Hw2, Hw1.
    exact (games_of_insert_or_replace (started_games_row started provenance gid)
             (working w)). }
  split; [| split; [| exact Hc3]].
  - rewrite Hw3.
    change (games_of gid (delete_live_state_where gid ?d)) with (games_of gid d).
    rewrite games_of_update, select_moves_uci_where_live, Hlive, Hgames.
    simpl. by rewrite joined_uci_space_joined.
  - rewrite Hw3. apply live_state_of_delete.
Qed.

(** X16: No rollback: [game_started] on a descriptor that lacks only its
    [clock_initial] (the rating of the opponent is [None] or an integer
    of 64 bits), the storage engine answering the first statement, fails
    after the [INSERT] into [games].  The call
    returns with the error logged; the record of the game is written in
    the connection and not committed, no live row is written, and the
    record is committed, without a live row, by the next call of any
    operation whose body completes. *)
Theorem game_started_without_clock_leaves_record (game : Game.t)
    (provenance gid : string) (w : World) :
  well_formed game -> Game.id game = Some gid -> calm 1 w ->
  returns (game_started (without_clock_initial game) provenance) w
  /\ working (after (game_started (without_clock_initial game) provenance) w)
     = insert_or_replace_games (started_games_row game provenance gid) (working w)
  /\ committed (after (game_started (without_clock_initial game) provenance) w)
     = committed w
  /\ log (after (game_started (without_clock_initial game) provenance) w)
     = log w ++ [ERROR ("Failed to log game start for " +:+ gid)]
  /\ forall c : Call,
       body_result c (after (game_started (without_clock_initial game) provenance) w)
       = inr tt ->
       has_game gid
         (committed
            (world_after c
               (after (game_started (without_clock_initial game) provenance) w))).
Proof.
  intros (_ & [url Hurl] & [color Hcolor] & (p & Hp & [n Hn] & (r & Hr & Hfits) & [b Hb])
          & [tc Htc] & [sp Hsp] & [md Hmd] & [gs Hgs] & _) Hid (F1 & _).
  pose proof (bindable_rating r b Hfits) as B1.
  assert (Hrun : game_started (without_clock_initial game) provenance w
                 = (inr tt,
                    add_log (ERROR ("Failed to log game start for " +:+ gid))
                      (set_working
                         (insert_or_replace_games (started_games_row game provenance gid))
                         (answered w)))).
  { unfold game_started, try_except, game_started_body. simpl.
    repeat run_step. unfold bind, getattr, raise. rewrite Hid. simpl.
    unfold started_games_row. rewrite Hurl, Hcolor, Hp, Htc, Hsp, Hmd, Hgs, Hn, Hr, Hb.
    reflexivity. }
  unfold returns, after. rewrite Hrun. simpl.
  split; [reflexivity |]. split; [reflexivity |]. split; [reflexivity |].
  split; [reflexivity |].
  intros c Hc. pose proof (world_after_committed c
    (add_log (ERROR ("Failed to log game start for " +:+ gid))
       (set_working (insert_or_replace_games (started_games_row game provenance gid))
          (answered w)))) as Hpub.
  rewrite Hc in Hpub. rewrite Hpub.
  pose proof games_kept_preorder as Hpre.
  apply (steps_working_monotone games_kept _ _ statement_games_kept
           (world_after_steps c _)).
  simpl. unfold has_game. simpl. apply Exists_app. right. by apply Exists_cons_hd.
Qed.
End Sequences.

Lemma update_live_state_without_live_row_witness :
  live_state_of "test_game_1" (working fresh_world) = []
  /\ returns (update_live_state MockGame_default (board_after ["e2e4"])) fresh_world
  /\ working (after (update_live_state MockGame_default (board_after ["e2e4"])) fresh_world)
     = working fresh_world
  /\ committed (after (update_live_state MockGame_default (board_after ["e2e4"]))
                  fresh_world)
     = working fresh_world
  /\ log (after (update_live_state MockGame_default (board_after ["e2e4"])) fresh_world)
     = log fresh_world.
Proof.
  split; [reflexivity |].
  apply (update_live_state_without_live_row (L := opening_lines) MockGame_default
           (board_after ["e2e4"])
           {| State.wtime := Some 180000; State.btime := Some 180000;
              State.winner := None; State.status := Some "started" |}
           "test_game_1" fresh_world).
  - reflexivity.
  - reflexivity.
  - reflexivity.
  - vm_compute. repeat split.
  - reflexivity.
Defined.

Lemma game_finished_again_erases_moves_witness :
  map Games.moves_uci
    (games_of "test_game_1"
       (working (after (game_finished MockGame_won "2025-01-15T12:30:00+00:00")
                   world_three_moves)))
  = [Some "e2e4 e7e5 g1f3"]
  /\ returns (game_finished MockGame_won "2025-01-15T12:31:00+00:00")
       (after (game_finished MockGame_won "2025-01-15T12:30:00+00:00") world_three_moves)
  /\ Forall (fun g => Games.moves_uci g = None)
       (games_of "test_game_1"
          (working (after (game_finished MockGame_won "2025-01-15T12:31:00+00:00")
                      (after (game_finished MockGame_won "2025-01-15T12:30:00+00:00")
                         world_three_moves)))).
Proof.
  split; [vm_compute; reflexivity |].
  apply (game_finished_again_erases_moves MockGame_won MockGame_won
           "2025-01-15T12:30:00+00:00" "2025-01-15T12:31:00+00:00" "test_game_1"
           "1-0" "1-0"
           {| State.wtime := Some 177000; State.btime := Some 178000;
              State.winner := Some "white"; State.status := Some "mate" |}
           {| State.wtime := Some 177000; State.btime := Some 178000;
              State.winner := Some "white"; State.status := Some "mate" |}
           world_three_moves);
    try reflexivity; vm_compute; repeat split.
Defined.

Lemma started_updated_finished_witness :
  games_of "test_game_1"
    (working (after (game_finished MockGame_won "2025-01-15T12:30:00+00:00")
                world_three_moves))
  = [set_finished (Some "1-0") (Some "mate") (Some "2025-01-15T12:30:00+00:00")
       (Some "e2e4 e7e5 g1f3")
       (started_games_row MockGame_default "matchmaking" "test_game_1")]
  /\ live_state_of "test_game_1"
       (working (after (game_finished MockGame_won "2025-01-15T12:30:00+00:00")
                   world_three_moves))
     = []
  /\ committed (after (game_finished MockGame_won "2025-01-15T12:30:00+00:00")
                  world_three_moves)
     = working (after (game_finished MockGame_won "2025-01-15T12:30:00+00:00")
                  world_three_moves).
Proof.
  apply (started_updated_finished (L := opening_lines) MockGame_default MockGame_default
           MockGame_won "matchmaking" "2025-01-15T12:30:00+00:00" "test_game_1" "1-0"
           (timedelta_of_seconds 180) 180000 (board_after ["e2e4"; "e7e5"; "g1f3"])
           {| State.wtime := Some 180000; State.btime := Some 180000;
              State.winner := None; State.status := Some "started" |}
           {| State.wtime := Some 177000; State.btime := Some 178000;
              State.winner := Some "white"; State.status := Some "mate" |}
           fresh_world).
  - unfold well_formed. simpl. repeat (split || eexists).
  - reflexivity.
  - reflexivity.
  - vm_compute. reflexivity.
  - reflexivity.
  - vm_compute. repeat split.
  - reflexivity.
  - reflexivity.
  - reflexivity.
  - vm_compute. repeat split.
  - reflexivity.
  - reflexivity.
  - reflexivity.
  - vm_compute. repeat split.
Defined.

Lemma game_started_without_clock_leaves_record_witness :
  returns (game_started (without_clock_initial MockGame_default) "matchmaking") fresh_world
  /\ working (after (game_started (without_clock_initial MockGame_default) "matchmaking")
                fresh_world)
     = insert_or_replace_games
         (started_games_row MockGame_default "matchmaking" "test_game_1")
         (working fresh_world)
  /\ committed (after (game_started (without_clock_initial MockGame_default) "matchmaking")
                  fresh_world)
     = committed fresh_world
  /\ log (after (game_started (without_clock_initial MockGame_default) "matchmaking")
            fresh_world)
     = log fresh_world ++ [ERROR "Failed to log game start for test_game_1"]
  /\ forall c : Call (L := opening_lines),
       body_result c
         (after (game_started (without_clock_initial MockGame_default) "matchmaking")
            fresh_world)
       = inr tt ->
       has_game "test_game_1"
         (committed
            (world_after c
               (after (game_started (without_clock_initial MockGame_default)
                         "matchmaking") fresh_world))).
Proof.
  apply (game_started_without_clock_leaves_record (L := opening_lines) MockGame_default
           "matchmaking" "test_game_1" fresh_world).
  - unfold well_formed. simpl. repeat (split || eexists).
  - reflexivity.
  - vm_compute. repeat split.
Defined.

(** ** [__init__] on any file *)






(** ** What a call leaves alone *)


Section Frames.
Context `{L : ChessLib}.
Variable I : World -> Prop.





End Frames.

Section FramesOfCalls.
Context `{L : ChessLib}.








(** X21: Whatever follows the push: when the move passed has a notation in
    the position before the last move of the board, [move_played] leaves
    the board with that move in the place of its last move, whether the
    row is written or not (a time that does not convert, a descriptor
    without its attributes, a storage-engine error). *)
Theorem move_played_leaves_the_move_pushed game move commentary source w board
    front last move_san :
  move_stack board = front ++ [last] ->
  position_san (position {| root := root board; move_stack := front |}) move
  = Some move_san ->
  (after (move_played game move commentary source) (w, board)).2
  = {| root := root board; move_stack := front ++ [move] |}.
Proof.
  intros Hstack Hsan.
  set (b1 := {| root := root board; move_stack := front ++ [move] |}).
  unfold after, move_played, try_except, move_played_body.
  unfold bind at 1. unfold on_snd at 1, gets at 1. simpl.
  unfold bind at 1. unfold on_snd at 1, pop at 1. simpl. rewrite Hstack, unsnoc_snoc. simpl.
  unfold bind at 1. unfold on_snd at 1, san at 1. simpl. rewrite Hsan. simpl.
  unfold bind at 1. unfold on_snd at 1, push at 1, modify at 1. simpl.
  fold b1.
  pose proof (read_commentary_state commentary (w, b1)) as Hst.
  unfold bind at 1.
  destruct (read_commentary commentary (w, b1)) as [[e | ev] st1]; simpl in Hst; subst st1.
  { simpl. unfold bind, getattr. by destruct (Game.id game). }
  destruct (Game.state game) as [state |]; simpl;
    [| unfold bind, getattr; by destruct (Game.id game)].
  destruct (Game.is_white game) as [is_white |]; simpl;
    [| unfold bind, getattr; by destruct (Game.id game)].
  destruct (Game.id game) as [game_id |] eqn:Hid; simpl; [| reflexivity].
  unfold bind, ret, on_fst, execute_with. cbv beta iota zeta. cbn [fst snd].
  destruct (bindable _); [| reflexivity].
  unfold bind, on_fst, execute, commit, bind, next_fault, modify, raise. simpl.
  destruct (default false (head (faults w))); simpl; [reflexivity |].
  destruct (default false (head (tail (faults w)))); simpl; reflexivity.
Qed.
End FramesOfCalls.


Lemma move_played_leaves_the_move_pushed_witness :
  (after (move_played BadGame "e7e5" (Some (make_commentary (Cp 35) 12)) "search")
     (world_started, board_after ["e2e4"; "e7e5"])).2
  = board_after ["e2e4"; "e7e5"].
Proof.
  apply (move_played_leaves_the_move_pushed (L := opening_lines) BadGame "e7e5"
           (Some (make_commentary (Cp 35) 12)) "search" world_started
           (board_after ["e2e4"; "e7e5"]) ["e2e4"] "e7e5" "e5"); reflexivity.
Defined.
